(** * frames: namespaced window messaging (src/index.js)

    A shallow embedding of the module [frames] and of the host primitives it
    calls (regular expressions, JSON text, the global event target), followed
    by the properties of its message routing.

    Representation choices.
    - A JavaScript string is a [string]: one [ascii] per code unit, for
      strings whose code units are below 256.
    - [new RegExp(pattern)] is a parser from the pattern text to a syntax
      tree and [test] is a matcher over that tree.  The parser covers
      literals, [.], [^], [$], [|], groups, the quantifiers [*], [+], [?]
      (greedy or lazy) and backslash-escaped punctuation; other syntax is
      reported as [OutsideFragment].
    - Module-level variables are the fields of [State]; every exported
      function takes the state and returns the new state together with the
      effects it performed and how it completed.
    - User callbacks and window handles are opaque identifiers.  A call of
      a user callback is recorded as an effect, after which the callback
      runs: what it does then, to the module or to anything else, is given
      by the environment. *)

From Stdlib Require Import List String Ascii ZArith Bool Lia DecimalString.
From stdpp Require Import gmap strings.
Import ListNotations.

Local Open Scope string_scope.
Local Open Scope list_scope.
Local Set Warnings "-register-all".

(** ** Characters *)

Module Chars.

Definition code (c : ascii) : nat := nat_of_ascii c.

(** Line terminators among the code units below 256: LF and CR. *)
Definition is_line_terminator (c : ascii) : bool :=
  (code c =? 10)%nat || (code c =? 13)%nat.

(** Canonicalize of a case-insensitive, non-unicode RegExp: the upper-case
    mapping of a single code unit, kept when it is a single code unit and
    does not move a non-ASCII unit into ASCII.  Units 181 and 255 map
    outside the range to units nothing else maps to, and 223 and 247 do
    not change; all four are represented by themselves. *)
Definition canonicalize (c : ascii) : ascii :=
  let n := code c in
  if ((97 <=? n) && (n <=? 122))%nat then ascii_of_nat (n - 32)
  else if ((224 <=? n) && (n <=? 254) && negb (n =? 247))%nat
       then ascii_of_nat (n - 32)
  else c.

(** Whether pattern character [c] matches input character [x]. *)
Definition char_matches (ignoreCase : bool) (c x : ascii) : bool :=
  if ignoreCase then Ascii.eqb (canonicalize c) (canonicalize x)
  else Ascii.eqb c x.

End Chars.

(** ** Regular expressions *)

Module Regex.
Import Chars.

Inductive regex : Type :=
| Fail                      (* the empty disjunction; never produced alone *)
| Empty                     (* the empty alternative *)
| Char (c : ascii)
| AnyChar                   (* . *)
| InputStart                (* ^ without the m flag *)
| InputEnd                  (* $ without the m flag *)
| Seq (a b : regex)
| Alt (a b : regex)
| Star (a : regex).

Definition mk_seq (terms : list regex) : regex := fold_right Seq Empty terms.
Definition mk_alt (alts : list regex) : regex := fold_right Alt Fail alts.

(** Zero or more rounds of [step], each of which has to consume input
    (a round that matches the empty string is not taken); [fuel] bounds
    the rounds and the length of the input is enough. *)
Fixpoint iterate (step : list ascii -> list (list ascii)) (fuel : nat)
         (s : list ascii) {struct fuel} : list (list ascii) :=
  s :: match fuel with
       | O => []
       | S fuel' =>
           flat_map
             (fun s' => if (length s' <? length s)%nat
                        then iterate step fuel' s' else [])
             (step s)
       end.

(** [run ic total r s]: the inputs that can remain after [r] has matched a
    prefix of [s]; [total] is the length of the whole subject string, so
    that [length s = total] exactly at its start.  All ways of matching are
    kept, which is what backtracking explores. *)
Fixpoint run (ic : bool) (total : nat) (r : regex) (s : list ascii)
  : list (list ascii) :=
  match r with
  | Fail => []
  | Empty => [s]
  | Char c =>
      match s with
      | x :: t => if char_matches ic c x then [t] else []
      | [] => []
      end
  | AnyChar =>
      match s with
      | x :: t => if is_line_terminator x then [] else [t]
      | [] => []
      end
  | InputStart => if (length s =? total)%nat then [s] else []
  | InputEnd => match s with [] => [s] | _ :: _ => [] end
  | Seq a b => flat_map (run ic total b) (run ic total a s)
  | Alt a b => run ic total a s ++ run ic total b s
  | Star a => iterate (run ic total a) (length s) s
  end.

(** The suffixes of the subject: one per start index, leftmost first. *)
Fixpoint tails (s : list ascii) : list (list ascii) :=
  s :: match s with [] => [] | _ :: t => tails t end.

Definition nonempty {A} (l : list A) : bool :=
  match l with [] => false | _ :: _ => true end.

(** A compiled RegExp object without the g and y flags: [test] searches
    from index 0 and keeps no state between calls. *)
Record RegExp : Type := { tree : regex; ignoreCase : bool }.

Definition test_chars (re : RegExp) (s : list ascii) : bool :=
  existsb (fun t => nonempty (run (ignoreCase re) (length s) (tree re) t))
          (tails s).

Definition test (re : RegExp) (s : string) : bool :=
  test_chars re (list_ascii_of_string s).

(** *** The pattern parser *)

Inductive token_class :=
| TOpen | TClose | TBar | TStar | TPlus | TQuest | TBackslash
| TDot | TCaret | TDollar | TBracket | TLiteral.

Definition classify (c : ascii) : token_class :=
  if Ascii.eqb c "(" then TOpen
  else if Ascii.eqb c ")" then TClose
  else if Ascii.eqb c "|" then TBar
  else if Ascii.eqb c "*" then TStar
  else if Ascii.eqb c "+" then TPlus
  else if Ascii.eqb c "?" then TQuest
  else if Ascii.eqb c "\" then TBackslash
  else if Ascii.eqb c "." then TDot
  else if Ascii.eqb c "^" then TCaret
  else if Ascii.eqb c "$" then TDollar
  else if Ascii.eqb c "[" || Ascii.eqb c "]"
          || Ascii.eqb c "{" || Ascii.eqb c "}" then TBracket
  else TLiteral.

(** Characters a backslash turns into themselves: the syntax characters
    and the slash. *)
Definition escapable (c : ascii) : bool :=
  match classify c with
  | TLiteral => Ascii.eqb c "/"
  | _ => true
  end.

Inductive parse_result :=
| Compiled (r : regex)
| Invalid              (* the RegExp constructor throws a SyntaxError *)
| OutsideFragment.     (* valid or not, the pattern is not modelled *)

(** What a quantifier may attach to. *)
Inductive qstate := NoAtom | HasAtom | Quantified | QuantifiedLazy.

(** Finished alternatives and the terms of the open one, latest first. *)
Definition frame : Type := (list regex * list regex)%type.

Definition close (alts terms : list regex) : regex :=
  mk_alt (rev (mk_seq (rev terms) :: alts)).

Definition quantify (f : regex -> regex) (q : qstate) (terms : list regex)
  : option (list regex) :=
  match q, terms with
  | HasAtom, t :: ts => Some (f t :: ts)
  | _, _ => None
  end.

Fixpoint parse (p : list ascii) (stack : list frame)
         (alts terms : list regex) (q : qstate) {struct p} : parse_result :=
  match p with
  | [] =>
      match stack with
      | [] => Compiled (close alts terms)
      | _ :: _ => Invalid
      end
  | c :: rest =>
      match classify c with
      | TOpen =>
          match rest with
          | c1 :: rest1 =>
              if Ascii.eqb c1 "?" then
                match rest1 with
                | c2 :: rest2 =>
                    if Ascii.eqb c2 ":"
                    then parse rest2 ((alts, terms) :: stack) [] [] NoAtom
                    else OutsideFragment
                | [] => Invalid
                end
              else parse rest ((alts, terms) :: stack) [] [] NoAtom
          | [] => Invalid
          end
      | TClose =>
          match stack with
          | [] => Invalid
          | (alts', terms') :: stack' =>
              parse rest stack' alts' (close alts terms :: terms') HasAtom
          end
      | TBar => parse rest stack (mk_seq (rev terms) :: alts) [] NoAtom
      | TStar =>
          match quantify Star q terms with
          | Some terms' => parse rest stack alts terms' Quantified
          | None => Invalid
          end
      | TPlus =>
          match quantify (fun t => Seq t (Star t)) q terms with
          | Some terms' => parse rest stack alts terms' Quantified
          | None => Invalid
          end
      | TQuest =>
          match q with
          | Quantified => parse rest stack alts terms QuantifiedLazy
          | _ =>
              match quantify (fun t => Alt t Empty) q terms with
              | Some terms' => parse rest stack alts terms' Quantified
              | None => Invalid
              end
          end
      | TBackslash =>
          match rest with
          | c1 :: rest1 =>
              if escapable c1
              then parse rest1 stack alts (Char c1 :: terms) HasAtom
              else OutsideFragment
          | [] => Invalid
          end
      | TDot => parse rest stack alts (AnyChar :: terms) HasAtom
      | TCaret => parse rest stack alts (InputStart :: terms) NoAtom
      | TDollar => parse rest stack alts (InputEnd :: terms) NoAtom
      | TBracket => OutsideFragment
      | TLiteral => parse rest stack alts (Char c :: terms) HasAtom
      end
  end.

Definition parse_pattern (pattern : string) : parse_result :=
  parse (list_ascii_of_string pattern) [] [] [] NoAtom.

End Regex.

(** ** Completions of host operations *)

Inductive exn := SyntaxError | TypeError | ReferenceError | SecurityError.

Inductive result (A : Type) : Type :=
| Ok (a : A)
| Throws (e : exn)
| Unmodelled.          (* the input lies outside the modelled fragment *)

Arguments Ok {A} a.
Arguments Throws {A} e.
Arguments Unmodelled {A}.

(** [new RegExp(pattern, flags)], for [flags] empty or ["i"]. *)
Definition RegExp_new (pattern : string) (ic : bool) : result Regex.RegExp :=
  match Regex.parse_pattern pattern with
  | Regex.Compiled r => Ok {| Regex.tree := r; Regex.ignoreCase := ic |}
  | Regex.Invalid => Throws SyntaxError
  | Regex.OutsideFragment => Unmodelled
  end.

(** A RegExp literal of the source; its pattern is known to compile. *)
Definition regexp_literal (pattern : string) (ic : bool) : Regex.RegExp :=
  match RegExp_new pattern ic with
  | Ok re => re
  | _ => {| Regex.tree := Regex.Fail; Regex.ignoreCase := ic |}
  end.

(** ** JSON values and text *)

Module JSON.

(** The integers that a double represents exactly and that
    [JSON.stringify] writes in plain decimal digits. *)
Definition safe_integer (z : Z) : bool :=
  ((- 9007199254740991 <=? z) && (z <=? 9007199254740991))%Z.

Record safe_int : Type := SafeInt {
  int_value : Z;
  int_safe : safe_integer int_value = true
}.

Definition safe_int_of (z : Z) : option safe_int :=
  match safe_integer z as b return safe_integer z = b -> option safe_int with
  | true => fun H => Some (SafeInt z H)
  | false => fun _ => None
  end eq_refl.

(** The values that travel as message data.  Numbers are the safe
    integers; an object lists its own properties in enumeration order. *)
Inductive value : Type :=
| VUndefined
| VNull
| VBool (b : bool)
| VNum (n : safe_int)
| VStr (s : string)
| VArr (elements : list value)
| VObj (members : list (string * value)).

Definition string_of_Z (z : Z) : string :=
  DecimalString.NilZero.string_of_int (Z.to_int z).

Fixpoint join (sep : string) (l : list string) : string :=
  match l with
  | [] => ""
  | [x] => x
  | x :: rest => x +:+ sep +:+ join sep rest
  end.

Definition dquote : ascii := "034"%char.

Definition hex_digit (n : nat) : ascii :=
  if (n <? 10)%nat then ascii_of_nat (48 + n) else ascii_of_nat (87 + n).

(** QuoteJSONString, one code unit at a time. *)
Definition quote_char (c : ascii) : string :=
  let n := Chars.code c in
  if (n =? 34)%nat then String "\" (String dquote "")
  else if (n =? 92)%nat then "\\"
  else if (n =? 8)%nat then "\b"
  else if (n =? 9)%nat then "\t"
  else if (n =? 10)%nat then "\n"
  else if (n =? 12)%nat then "\f"
  else if (n =? 13)%nat then "\r"
  else if (n <? 32)%nat
       then "\u00" +:+ String (hex_digit (n / 16)) (String (hex_digit (n mod 16)) "")
  else String c "".

Fixpoint quote_chars (s : string) : string :=
  match s with
  | EmptyString => ""
  | String c rest => quote_char c +:+ quote_chars rest
  end.

Definition quote (s : string) : string :=
  String dquote (quote_chars s +:+ String dquote "").

(** SerializeJSONProperty without indentation; [None] is [undefined]. *)
Fixpoint serialize (v : value) : option string :=
  match v with
  | VUndefined => None
  | VNull => Some "null"
  | VBool true => Some "true"
  | VBool false => Some "false"
  | VNum n => Some (string_of_Z (int_value n))
  | VStr s => Some (quote s)
  | VArr elements =>
      Some ("[" +:+ join ","
              (map (fun e => match serialize e with
                             | Some t => t
                             | None => "null"
                             end) elements) +:+ "]")
  | VObj members =>
      Some ("{" +:+ join ","
              (flat_map (fun kv => match serialize (snd kv) with
                                   | Some t => [quote (fst kv) +:+ ":" +:+ t]
                                   | None => []
                                   end) members) +:+ "}")
  end.

(** [JSON.stringify(v)] of an object or array, which is always text. *)
Definition stringify (v : value) : string :=
  match serialize v with Some t => t | None => "undefined" end.

(** *** [JSON.parse]

    The fragment read back: literals, integers in the exactly represented
    range, strings with the two-character escapes, arrays and objects.
    Fractions, exponents, [\u] escapes and keys made of digits (which
    enumerate out of insertion order) are [Unmodelled]. *)

Definition is_ws (c : ascii) : bool :=
  let n := Chars.code c in
  ((n =? 32) || (n =? 9) || (n =? 10) || (n =? 13))%nat.

Definition is_digit (c : ascii) : bool :=
  let n := Chars.code c in ((48 <=? n) && (n <=? 57))%nat.

Fixpoint skip_ws (s : list ascii) : list ascii :=
  match s with
  | c :: t => if is_ws c then skip_ws t else s
  | [] => []
  end.

Fixpoint expect (keyword s : list ascii) : option (list ascii) :=
  match keyword, s with
  | [], _ => Some s
  | k :: keyword', c :: t => if Ascii.eqb k c then expect keyword' t else None
  | _ :: _, [] => None
  end.

Definition unescape (e : ascii) : option ascii :=
  if Ascii.eqb e dquote then Some dquote
  else if Ascii.eqb e "\" then Some "\"%char
  else if Ascii.eqb e "/" then Some "/"%char
  else if Ascii.eqb e "b" then Some "008"%char
  else if Ascii.eqb e "f" then Some "012"%char
  else if Ascii.eqb e "n" then Some "010"%char
  else if Ascii.eqb e "r" then Some "013"%char
  else if Ascii.eqb e "t" then Some "009"%char
  else None.

(** The characters of a string after its opening quote. *)
Fixpoint parse_string (s acc : list ascii) : result (string * list ascii) :=
  match s with
  | [] => Throws SyntaxError
  | c :: t =>
      if Ascii.eqb c dquote then Ok (string_of_list_ascii (rev acc), t)
      else if Ascii.eqb c "\" then
        match t with
        | e :: t' =>
            match unescape e with
            | Some x => parse_string t' (x :: acc)
            | None => if Ascii.eqb e "u" then Unmodelled else Throws SyntaxError
            end
        | [] => Throws SyntaxError
        end
      else if (Chars.code c <? 32)%nat then Throws SyntaxError
      else parse_string t (c :: acc)
  end.

Fixpoint take_digits (s : list ascii) (acc : Z) : Z * list ascii :=
  match s with
  | c :: t =>
      if is_digit c
      then take_digits t (10 * acc + Z.of_nat (Chars.code c - 48))%Z
      else (acc, s)
  | [] => (acc, [])
  end.

Definition starts_fraction (s : list ascii) : bool :=
  match s with
  | c :: _ => Ascii.eqb c "." || Ascii.eqb c "e" || Ascii.eqb c "E"
  | [] => false
  end.

Definition parse_number (s : list ascii) : result (value * list ascii) :=
  let '(negative, digits) :=
    match s with
    | c :: t => if Ascii.eqb c "-" then (true, t) else (false, s)
    | [] => (false, s)
    end in
  match digits with
  | d :: t =>
      if is_digit d then
        let '(n, rest) :=
          if Ascii.eqb d "0" then (0%Z, t) else take_digits digits 0 in
        if starts_fraction rest then Unmodelled
        else match safe_int_of (if negative then - n else n)%Z with
             | Some i => Ok (VNum i, rest)
             | None => Unmodelled
             end
      else Throws SyntaxError
  | [] => Throws SyntaxError
  end.

Definition all_digits (k : string) : bool :=
  match list_ascii_of_string k with
  | [] => false
  | cs => forallb is_digit cs
  end.

(** CreateDataProperty on an object under construction: a repeated key
    keeps its place and takes the later value. *)
Fixpoint set_member (k : string) (v : value) (members : list (string * value))
  : list (string * value) :=
  match members with
  | [] => [(k, v)]
  | (k', v') :: rest =>
      if String.eqb k k' then (k, v) :: rest
      else (k', v') :: set_member k v rest
  end.

Fixpoint parse_value (fuel : nat) (s : list ascii) {struct fuel}
  : result (value * list ascii) :=
  match fuel with
  | O => Unmodelled
  | S fuel' =>
      match skip_ws s with
      | [] => Throws SyntaxError
      | c :: t =>
          if Ascii.eqb c "n" then
            match expect (list_ascii_of_string "ull") t with
            | Some rest => Ok (VNull, rest)
            | None => Throws SyntaxError
            end
          else if Ascii.eqb c "t" then
            match expect (list_ascii_of_string "rue") t with
            | Some rest => Ok (VBool true, rest)
            | None => Throws SyntaxError
            end
          else if Ascii.eqb c "f" then
            match expect (list_ascii_of_string "alse") t with
            | Some rest => Ok (VBool false, rest)
            | None => Throws SyntaxError
            end
          else if Ascii.eqb c dquote then
            match parse_string t [] with
            | Ok (str, rest) => Ok (VStr str, rest)
            | Throws e => Throws e
            | Unmodelled => Unmodelled
            end
          else if Ascii.eqb c "[" then
            match skip_ws t with
            | c' :: t' =>
                if Ascii.eqb c' "]" then Ok (VArr [], t')
                else parse_elements fuel' [] t
            | [] => Throws SyntaxError
            end
          else if Ascii.eqb c "{" then
            match skip_ws t with
            | c' :: t' =>
                if Ascii.eqb c' "}" then Ok (VObj [], t')
                else parse_members fuel' [] t
            | [] => Throws SyntaxError
            end
          else parse_number (c :: t)
      end
  end
with parse_elements (fuel : nat) (acc : list value) (s : list ascii)
     {struct fuel} : result (value * list ascii) :=
  match fuel with
  | O => Unmodelled
  | S fuel' =>
      match parse_value fuel' s with
      | Ok (v, rest) =>
          match skip_ws rest with
          | c :: t =>
              if Ascii.eqb c "," then parse_elements fuel' (v :: acc) t
              else if Ascii.eqb c "]" then Ok (VArr (rev (v :: acc)), t)
              else Throws SyntaxError
          | [] => Throws SyntaxError
          end
      | other => other
      end
  end
with parse_members (fuel : nat) (acc : list (string * value)) (s : list ascii)
     {struct fuel} : result (value * list ascii) :=
  match fuel with
  | O => Unmodelled
  | S fuel' =>
      match skip_ws s with
      | q :: t =>
          if Ascii.eqb q dquote then
            match parse_string t [] with
            | Ok (k, rest) =>
                match skip_ws rest with
                | colon :: rest' =>
                    if Ascii.eqb colon ":" then
                      match parse_value fuel' rest' with
                      | Ok (v, rest'') =>
                          if all_digits k then Unmodelled else
                          match skip_ws rest'' with
                          | c :: t' =>
                              if Ascii.eqb c ","
                              then parse_members fuel' (set_member k v acc) t'
                              else if Ascii.eqb c "}"
                              then Ok (VObj (set_member k v acc), t')
                              else Throws SyntaxError
                          | [] => Throws SyntaxError
                          end
                      | other => other
                      end
                    else Throws SyntaxError
                | [] => Throws SyntaxError
                end
            | Throws e => Throws e
            | Unmodelled => Unmodelled
            end
          else Throws SyntaxError
      | [] => Throws SyntaxError
      end
  end.

(** [JSON.parse(text)]. *)
Definition parse (text : string) : result value :=
  let s := list_ascii_of_string text in
  match parse_value (2 * length s + 2) s with
  | Ok (v, rest) =>
      match skip_ws rest with
      | [] => Ok v
      | _ :: _ => Throws SyntaxError
      end
  | Throws e => Throws e
  | Unmodelled => Unmodelled
  end.

End JSON.

Import JSON.

(** ** Values of the host that the module handles *)

Definition window : Type := nat.

(** What [receiveMessage] returns: the event type and the identity of the
    [scoped] closure its [off] removes. *)
Record handle : Type := { h_type : string; h_scoped : nat }.

(** Arguments of the subscription functions.  [JFrame f w] is an iframe
    element whose [contentWindow] is [w]; [JOnce callback listener] is the
    arrow function that [receiveMessageOnce] creates, with the two variables
    it closes over. *)
Inductive jsval : Type :=
| JUndefined
| JNull
| JString (s : string)
| JWindow (w : window)
| JFrame (f : nat) (w : window)
| JFunction (f : nat)
| JObject (o : nat)
| JOnce (callback : jsval) (listener : handle).

Fixpoint jsval_eqb (a b : jsval) : bool :=
  match a, b with
  | JUndefined, JUndefined | JNull, JNull => true
  | JString s, JString t => String.eqb s t
  | JWindow w, JWindow v => Nat.eqb w v
  | JFrame f _, JFrame g _ => Nat.eqb f g
  | JFunction f, JFunction g => Nat.eqb f g
  | JObject o, JObject p => Nat.eqb o p
  | JOnce c l, JOnce d m =>
      jsval_eqb c d && String.eqb (h_type l) (h_type m)
      && Nat.eqb (h_scoped l) (h_scoped m)
  | _, _ => false
  end.

Definition truthy (v : jsval) : bool :=
  match v with
  | JUndefined | JNull => false
  | JString s => negb (String.eqb s "")
  | _ => true
  end.

(** An event as the listeners see it: a message event of the transport has
    [origin] and [data]; a CustomEvent has [detail]; [source] is set on
    both. *)
Record event : Type := {
  ev_type : string;
  ev_origin : option string;
  ev_data : option string;
  ev_detail : value;
  ev_source : jsval
}.

Definition MessageEvent (origin data : string) (source : jsval) : event :=
  {| ev_type := "message"; ev_origin := Some origin; ev_data := Some data;
     ev_detail := VUndefined; ev_source := source |}.

(** [new CustomEvent(type, { detail })] followed by the assignment of
    [source]; an undefined [detail] takes the default [null]. *)
Definition CustomEvent (type : string) (detail : value) (source : jsval) : event :=
  {| ev_type := type; ev_origin := None; ev_data := None;
     ev_detail := match detail with VUndefined => VNull | d => d end;
     ev_source := source |}.

(** The closure [scoped] of one [receiveMessage] call. *)
Record scoped : Type := {
  sc_id : nat;
  sc_source : jsval;
  sc_callback : jsval;
  sc_context : jsval
}.

Inductive listener : Type :=
| HandleReceiveMessage
| Scoped (sc : scoped).

Definition listener_eqb (a b : listener) : bool :=
  match a, b with
  | HandleReceiveMessage, HandleReceiveMessage => true
  | Scoped x, Scoped y => Nat.eqb (sc_id x) (sc_id y)
  | _, _ => false
  end.

(** What the module does to the outside: a message handed to a window, a
    local event dispatched, a user function called, an exception of a
    listener reported by the host, and destinations appended to the
    [targets] of a member of [Object.prototype]. *)
Inductive effect : Type :=
| Sent (target : window) (message : string) (targetOrigin : value)
| Dispatched (ev : event)
| Called (f : nat) (thisArg : jsval) (args : list jsval)
| Reported (e : exn)
| Extended (member : string) (targets : list window).

(** ** Constants of the module (lines 11-24) *)

Definition ALLOW_WILDCARD : string := ".*".
Definition DEFAULT_MESSAGE_NAMESPACE : string := ".postMessage".
Definition DEFAULT_POSTMESSAGE_OPTIONS : list (string * value) :=
  [("targetOrigin", VStr "*")].
Definition RE_HAS_NAMESPACE : Regex.RegExp := regexp_literal "\..+$" false.

(** [new RegExp(`\\.(?:${namespaces.join('|')})$`)]: the template yields
    the pattern text [\.(?:] ... [)$]. *)
Definition compileNamespaceRegExp (namespaces : list string) : result Regex.RegExp :=
  RegExp_new ("\.(?:" +:+ JSON.join "|" namespaces +:+ ")$") false.

(** [new RegExp(`^http(s)?:\\/\\/${origins.join('|')}$`, 'i')]. *)
Definition compileOriginRegExp (origins : list string) : result Regex.RegExp :=
  RegExp_new ("^http(s)?:\/\/" +:+ JSON.join "|" origins +:+ "$") true.

(** ** Module-level variables (lines 26-31) and the listeners of the
    global object

    [closures] counts the [scoped] closures created so far and gives each
    its identity. *)

Record State : Type := {
  allowedOrigins : list string;
  postMessageAllowedOriginRegex : Regex.RegExp;
  messageNamespaces : list string;
  messageNamespacesRegex : Regex.RegExp;
  proxies : gmap string (list window);
  listening : bool;
  listeners : list (string * listener);
  closures : nat
}.

Definition initial : State := {|
  allowedOrigins := [ALLOW_WILDCARD];
  postMessageAllowedOriginRegex :=
    regexp_literal ("^http(s)?:\/\/" +:+ JSON.join "|" [ALLOW_WILDCARD] +:+ "$") true;
  messageNamespaces := [DEFAULT_MESSAGE_NAMESPACE];
  messageNamespacesRegex :=
    regexp_literal ("\.(?:" +:+ JSON.join "|" [DEFAULT_MESSAGE_NAMESPACE] +:+ ")$") false;
  proxies := ∅;
  listening := false;
  listeners := [];
  closures := 0
|}.

Definition set_allowedOrigins (v : list string) (st : State) : State :=
  {| allowedOrigins := v;
     postMessageAllowedOriginRegex := postMessageAllowedOriginRegex st;
     messageNamespaces := messageNamespaces st;
     messageNamespacesRegex := messageNamespacesRegex st;
     proxies := proxies st; listening := listening st;
     listeners := listeners st; closures := closures st |}.

Definition set_postMessageAllowedOriginRegex (v : Regex.RegExp) (st : State) : State :=
  {| allowedOrigins := allowedOrigins st;
     postMessageAllowedOriginRegex := v;
     messageNamespaces := messageNamespaces st;
     messageNamespacesRegex := messageNamespacesRegex st;
     proxies := proxies st; listening := listening st;
     listeners := listeners st; closures := closures st |}.

Definition set_messageNamespaces (v : list string) (st : State) : State :=
  {| allowedOrigins := allowedOrigins st;
     postMessageAllowedOriginRegex := postMessageAllowedOriginRegex st;
     messageNamespaces := v;
     messageNamespacesRegex := messageNamespacesRegex st;
     proxies := proxies st; listening := listening st;
     listeners := listeners st; closures := closures st |}.

Definition set_messageNamespacesRegex (v : Regex.RegExp) (st : State) : State :=
  {| allowedOrigins := allowedOrigins st;
     postMessageAllowedOriginRegex := postMessageAllowedOriginRegex st;
     messageNamespaces := messageNamespaces st;
     messageNamespacesRegex := v;
     proxies := proxies st; listening := listening st;
     listeners := listeners st; closures := closures st |}.

Definition set_proxies (v : gmap string (list window)) (st : State) : State :=
  {| allowedOrigins := allowedOrigins st;
     postMessageAllowedOriginRegex := postMessageAllowedOriginRegex st;
     messageNamespaces := messageNamespaces st;
     messageNamespacesRegex := messageNamespacesRegex st;
     proxies := v; listening := listening st;
     listeners := listeners st; closures := closures st |}.

Definition set_listening (v : bool) (st : State) : State :=
  {| allowedOrigins := allowedOrigins st;
     postMessageAllowedOriginRegex := postMessageAllowedOriginRegex st;
     messageNamespaces := messageNamespaces st;
     messageNamespacesRegex := messageNamespacesRegex st;
     proxies := proxies st; listening := v;
     listeners := listeners st; closures := closures st |}.

Definition set_listeners (v : list (string * listener)) (st : State) : State :=
  {| allowedOrigins := allowedOrigins st;
     postMessageAllowedOriginRegex := postMessageAllowedOriginRegex st;
     messageNamespaces := messageNamespaces st;
     messageNamespacesRegex := messageNamespacesRegex st;
     proxies := proxies st; listening := listening st;
     listeners := v; closures := closures st |}.

Definition set_closures (v : nat) (st : State) : State :=
  {| allowedOrigins := allowedOrigins st;
     postMessageAllowedOriginRegex := postMessageAllowedOriginRegex st;
     messageNamespaces := messageNamespaces st;
     messageNamespacesRegex := messageNamespacesRegex st;
     proxies := proxies st; listening := listening st;
     listeners := listeners st; closures := v |}.

(** ** Computations over the module state

    A computation threads the state, appends the effects it performs and
    completes with a value, with an exception, or outside the model.  The
    state reached when an exception is thrown is kept: assignments made
    before the throw stay. *)

Definition M (A : Type) : Type := State -> State * list effect * result A.

Definition ret {A} (a : A) : M A := fun st => (st, [], Ok a).

Definition bind {A B} (m : M A) (f : A -> M B) : M B :=
  fun st =>
    match m st with
    | (st1, t1, Ok a) => let '(st2, t2, r) := f a st1 in (st2, t1 ++ t2, r)
    | (st1, t1, Throws e) => (st1, t1, Throws e)
    | (st1, t1, Unmodelled) => (st1, t1, Unmodelled)
    end.

Notation "'do' x <- m ; k" := (bind m (fun x => k))
  (at level 10, x name, m at level 100, k at level 200).
Notation "'do' ' p <- m ; k" := (bind m (fun x => let 'p := x in k))
  (at level 10, p pattern, m at level 100, k at level 200).

Definition get : M State := fun st => (st, [], Ok st).
Definition modify (f : State -> State) : M unit := fun st => (f st, [], Ok tt).
Definition emit (e : effect) : M unit := fun st => (st, [e], Ok tt).
Definition throw {A} (e : exn) : M A := fun st => (st, [], Throws e).
Definition lift {A} (r : result A) : M A := fun st => (st, [], r).

(** [l.forEach(f)]: an exception thrown by [f] ends the loop. *)
Fixpoint for_each {A} (l : list A) (f : A -> M unit) : M unit :=
  match l with
  | [] => ret tt
  | x :: rest => do _ <- f x; for_each rest f
  end.

(** A listener called by the host: an exception it throws is reported and
    the host carries on. *)
Definition reporting (m : M unit) : M unit :=
  fun st =>
    match m st with
    | (st1, t1, Throws e) => (st1, t1 ++ [Reported e], Ok tt)
    | other => other
    end.

Definition final {A} (r : State * list effect * result A) : State := fst (fst r).
Definition trace {A} (r : State * list effect * result A) : list effect := snd (fst r).
Definition completion {A} (r : State * list effect * result A) : result A := snd r.

(** ** Helpers standing for built-in methods *)

(** [l.indexOf(x)], with [None] for -1. *)
Fixpoint indexOf (x : string) (l : list string) : option nat :=
  match l with
  | [] => None
  | y :: rest =>
      if String.eqb y x then Some 0
      else match indexOf x rest with Some i => Some (S i) | None => None end
  end.

(** [l.splice(i, 1)]: the array without its element at [i]. *)
Fixpoint splice1 {A} (i : nat) (l : list A) : list A :=
  match l, i with
  | [], _ => []
  | _ :: rest, O => rest
  | y :: rest, S j => y :: splice1 j rest
  end.

(** [s.split(sep)] for a one-character separator. *)
Fixpoint split (sep : ascii) (s : string) : list string :=
  match s with
  | EmptyString => [""]
  | String c rest =>
      if Ascii.eqb c sep then "" :: split sep rest
      else match split sep rest with
           | piece :: pieces => String c piece :: pieces
           | [] => [String c ""]
           end
  end.

Definition get_member (k : string) (members : list (string * value)) : value :=
  match find (fun kv => String.eqb (fst kv) k) members with
  | Some kv => snd kv
  | None => VUndefined
  end.

(** [v[k]] for a parsed value [v] and a key that no array or string defines. *)
Definition get_prop (v : value) (k : string) : result value :=
  match v with
  | VUndefined | VNull => Throws TypeError
  | VObj members => Ok (get_member k members)
  | _ => Ok VUndefined
  end.

(** ToString of a parsed value. *)
Fixpoint to_string (v : value) : string :=
  match v with
  | VUndefined => "undefined"
  | VNull => "null"
  | VBool true => "true"
  | VBool false => "false"
  | VNum n => string_of_Z (int_value n)
  | VStr s => s
  | VArr elements =>
      JSON.join ","
        (map (fun e => match e with
                       | VUndefined | VNull => ""
                       | _ => to_string e
                       end) elements)
  | VObj _ => "[object Object]"
  end.

Definition undefined_or (o : option string) : string :=
  match o with Some s => s | None => "undefined" end.

Definition option_string_eqb (o : option string) (s : string) : bool :=
  match o with Some t => String.eqb t s | None => false end.

(** ** The environment of the module

    The origin of the host document; the binding of [arguments] at module
    level ([None] when there is none, as in a native module; the arguments
    of the wrapper function when the module is loaded as CommonJS); which
    windows belong to a document of another origin; and what each user
    function does when it is called with a [this] and arguments. *)
Record Env : Type := {
  location_origin : string;
  module_arguments : option (list jsval);
  cross_origin : window -> bool;
  user_code : nat -> jsval -> list jsval -> M unit
}.

(** The names that every plain object inherits from [Object.prototype], in
    a host that has added none. *)
Definition OBJECT_PROTOTYPE_NAMES : list string :=
  ["constructor"; "hasOwnProperty"; "isPrototypeOf"; "propertyIsEnumerable";
   "toLocaleString"; "toString"; "valueOf"; "__proto__";
   "__defineGetter__"; "__defineSetter__";
   "__lookupGetter__"; "__lookupSetter__"].

Definition inherited (key : string) : bool :=
  existsb (String.eqb key) OBJECT_PROTOTYPE_NAMES.

(** What [proxies[key]] finds: an entry that [proxy] created, a member of
    [Object.prototype], or nothing. *)
Inductive proxy_entry : Type :=
| OwnEntry (targets : list window)
| InheritedMember
| NoEntry.

Definition get_proxy (st : State) (key : string) : proxy_entry :=
  match proxies st !! key with
  | Some targets => OwnEntry targets
  | None => if inherited key then InheritedMember else NoEntry
  end.

(** ** The module *)

Section Frames.

Variable env : Env.

(** [v.contentWindow].  An iframe element gives its window.  On a window
    of another origin the read throws SecurityError; a window of the own
    origin, a string and the arrow function of [receiveMessageOnce] are
    taken to have no property of that name. *)
Definition contentWindow (v : jsval) : result jsval :=
  match v with
  | JFrame _ w => Ok (JWindow w)
  | JWindow w => if cross_origin env w then Throws SecurityError else Ok JUndefined
  | JString _ | JOnce _ _ => Ok JUndefined
  | JUndefined | JNull => Throws TypeError
  | JFunction _ | JObject _ => Unmodelled
  end.

(** [this] at module level. *)
Definition this_module : jsval := JUndefined.

(** [addEventListener] and [removeEventListener] (lines 33-47), in a host
    whose global object has the standard methods: registering the same
    listener twice for a type registers it once. *)
Definition registered (type : string) (l : listener)
           (r : string * listener) : bool :=
  String.eqb (fst r) type && listener_eqb (snd r) l.

Definition addEventListener (type : string) (l : listener) : M unit :=
  modify (fun st =>
            if existsb (registered type l) (listeners st) then st
            else set_listeners (listeners st ++ [(type, l)]) st).

Definition removeEventListener (type : string) (l : listener) : M unit :=
  modify (fun st =>
            set_listeners
              (filter (fun r => negb (registered type l r)) (listeners st)) st).

(** Lines 49-51: [/\*/.test(origin)]. *)
Definition isWildcard (origin : string) : bool :=
  Regex.test (regexp_literal "\*" false) origin.

(** The loop over the keys of [DEFAULT_POSTMESSAGE_OPTIONS]: each default
    is assigned into the caller's object.  The result is the object as
    [JSON.stringify] sees it and the value read back from its
    [targetOrigin].  A property assigned on an array is kept but not
    serialized; assigning on [null] or on a primitive throws in strict
    code. *)
Definition assign_defaults (options : value) : result (value * value) :=
  match options with
  | VObj members =>
      let defaulted :=
        fold_left (fun o kv => set_member (fst kv) (snd kv) o)
                  DEFAULT_POSTMESSAGE_OPTIONS members in
      Ok (VObj defaulted, get_member "targetOrigin" defaulted)
  | VArr elements =>
      Ok (VArr elements, get_member "targetOrigin" DEFAULT_POSTMESSAGE_OPTIONS)
  | _ => Throws TypeError
  end.

(** Lines 63-79.  The object literal [{type, data, defaultedOptions}] names
    its third property after the variable.  The caller's [options] object
    is the one assigned into; as a value it is not shared here. *)
Definition postMessage (target : window) (type : string)
           (data options : value) : M unit :=
  let type :=
    if negb (Regex.test RE_HAS_NAMESPACE type)
    then type +:+ DEFAULT_MESSAGE_NAMESPACE else type in
  let options := match options with VUndefined => VObj [] | o => o end in
  do ' (defaultedOptions, targetOrigin) <- lift (assign_defaults options);
  emit (Sent target
             (JSON.stringify
                (VObj [("type", VStr type);
                       ("data", data);
                       ("defaultedOptions", defaultedOptions)]))
             targetOrigin).

(** [off()] of a handle (line 115): [removeEventListener(type, scoped)]. *)
Definition off (h : handle) : M unit :=
  modify (fun st =>
            set_listeners
              (filter (fun r =>
                         negb (String.eqb (fst r) (h_type h)
                               && match snd r with
                                  | Scoped sc => Nat.eqb (sc_id sc) (h_scoped h)
                                  | HandleReceiveMessage => false
                                  end))
                      (listeners st)) st).

(** [callee.apply(thisArg, argArray)] once [argArray] has been turned into
    a list (line 109, and lines 129-135 for the arrow function).  The call
    of a user function is recorded and the function then runs.  The arrow
    function of [receiveMessageOnce] ignores what it is applied to: it
    applies [callback], when truthy, to the module-level [this] and
    [arguments], then detaches [listener]. *)
Fixpoint function_apply (callee thisArg : jsval) (args : list jsval) : M unit :=
  match callee with
  | JFunction f =>
      do _ <- emit (Called f thisArg args);
      user_code env f thisArg args
  | JOnce callback listener =>
      do _ <- (if truthy callback then
                 match module_arguments env with
                 | Some arguments => function_apply callback this_module arguments
                 | None => throw ReferenceError
                 end
               else ret tt);
      off listener
  | JObject _ => lift Unmodelled
  | _ => throw TypeError
  end.

(** [CreateListFromArrayLike(obj)]: the elements [obj[0]] to [obj[len - 1]],
    where [len] is ToLength of [obj.length]; an absent [length] gives
    ToLength(undefined), which is 0. *)
Definition create_list_from_array_like (length : option nat)
           (element : nat -> jsval) : list jsval :=
  match length with
  | Some len => map element (seq 0 len)
  | None => []
  end.

(** An event object has no property named [length] and no indexed one. *)
Definition event_length (e : event) : option nat := None.
Definition event_element (e : event) (i : nat) : jsval := JUndefined.

(** The argument list that [apply] builds when its array of arguments is
    the event itself. *)
Definition list_from_event (e : event) : list jsval :=
  create_list_from_array_like (event_length e) (event_element e).

(** The event type a [type] argument denotes. *)
Definition event_type_of (type : jsval) : result string :=
  match type with
  | JString s => Ok s
  | JUndefined => Ok "undefined"
  | JNull => Ok "null"
  | _ => Unmodelled
  end.

(** Lines 90-117.  A string in first position shifts the arguments. *)
Definition receiveMessage (source type callback context : jsval) : M handle :=
  let '(source, type, callback, context) :=
    match source with
    | JString _ => (JNull, source, type, callback)
    | _ => (source, type, callback, context)
    end in
  let context := if truthy context then context else this_module in
  do st <- get;
  do type <- lift (event_type_of type);
  let scoped :=
    {| sc_id := closures st; sc_source := source;
       sc_callback := callback; sc_context := context |} in
  do _ <- modify (set_closures (S (closures st)));
  do _ <- addEventListener type (Scoped scoped);
  ret {| h_type := type; h_scoped := sc_id scoped |}.

(** The body of [scoped] (lines 102-110): [callback.apply(context, e, ...rest)]
    gives [apply] the event as its array of arguments. *)
Definition call_scoped (sc : scoped) (e : event) : M unit :=
  do skip <-
    (if truthy (sc_source sc) && negb (jsval_eqb (sc_source sc) (ev_source e))
     then do w <- lift (contentWindow (sc_source sc));
          ret (negb (jsval_eqb w (ev_source e)))
     else ret false);
  if skip : bool then ret tt
  else function_apply (sc_callback sc) (sc_context sc) (list_from_event e).

(** The handle [receiveMessage] is about to return in state [st]: the
    value of the variable [listener] by the time the arrow function of
    [receiveMessageOnce] can run. *)
Definition returned_handle (st : State) (source type : jsval) : result handle :=
  match event_type_of (match source with JString _ => source | _ => type end) with
  | Ok t => Ok {| h_type := t; h_scoped := closures st |}
  | Throws e => Throws e
  | Unmodelled => Unmodelled
  end.

(** Lines 128-138: the four arguments are handed on in the same positions,
    the arrow function in third place. *)
Definition receiveMessageOnce (source type callback context : jsval) : M handle :=
  do st <- get;
  do listener <- lift (returned_handle st source type);
  receiveMessage source type (JOnce callback listener) context.

(** Lines 144-152. *)
Definition removePostMessageOrigin (origin : string) : M unit :=
  do st <- get;
  match indexOf origin (allowedOrigins st) with
  | Some index =>
      do _ <- modify (set_allowedOrigins (splice1 index (allowedOrigins st)));
      do st1 <- get;
      do re <- lift (compileOriginRegExp (allowedOrigins st1));
      modify (set_postMessageAllowedOriginRegex re)
  | None => ret tt
  end.

(** Lines 158-168.  The wildcard branch replaces the array and leaves the
    compiled matcher as it is. *)
Definition addPostMessageOrigin (origin : string) : M unit :=
  if isWildcard origin then
    modify (set_allowedOrigins [ALLOW_WILDCARD])
  else
    do st <- get;
    match indexOf origin (allowedOrigins st) with
    | None =>
        do _ <- removePostMessageOrigin ALLOW_WILDCARD;
        do st1 <- get;
        do _ <- modify (set_allowedOrigins (allowedOrigins st1 ++ [origin]));
        do st2 <- get;
        do re <- lift (compileOriginRegExp (allowedOrigins st2));
        modify (set_postMessageAllowedOriginRegex re)
    | Some _ => ret tt
    end.

(** The guard at the head of [handleReceiveMessage] (lines 171-175). *)
Definition origin_rejected (st : State) (e : event) : bool :=
  negb (option_string_eqb (ev_origin e) (location_origin env))
  && negb (Regex.test (postMessageAllowedOriginRegex st)
                      (undefined_or (ev_origin e)))
  && negb (option_string_eqb (ev_origin e) "null").

(** [proxies[namespace]] for what [type.split('.', 2)[1]] gave. *)
Definition property_key (namespace : option string) : string :=
  undefined_or namespace.

(** [handleReceiveMessage] (lines 170-199), over the [global.dispatchEvent]
    it ends with.  When [proxies[namespace]] finds a member of
    [Object.prototype], a TypeError is thrown before anything is sent:
    either the member has no [targets] and [proxyWith.targets.forEach]
    throws, or [proxy] gave it one, which starts with [undefined], and the
    first [postMessage(undefined, ...)] throws. *)
Definition handleReceiveMessage_with (dispatchEvent : event -> M unit)
           (e : event) : M unit :=
  do st <- get;
  if origin_rejected st e then ret tt else
  do message <- lift (JSON.parse (undefined_or (ev_data e)));
  do type <- lift (get_prop message "type");
  if negb (Regex.test (messageNamespacesRegex st) (to_string type))
  then ret tt else
  match type with
  | VStr type =>
      let namespace := nth_error (firstn 2 (split "." type)) 1 in
      do data <- lift (get_prop message "data");
      do options <- lift (get_prop message "options");
      do _ <- match get_proxy st (property_key namespace) with
              | OwnEntry targets =>
                  for_each targets
                           (fun target => postMessage target type data options)
              | InheritedMember => throw TypeError
              | NoEntry => ret tt
              end;
      dispatchEvent (CustomEvent type data (ev_source e))
  | _ => throw TypeError
  end.

(** The host calling the listeners of an event: those registered for its
    type when the dispatch starts, in order, each only if it is still
    registered when its turn comes. *)
Definition call_listeners (handler : event -> M unit) (e : event) : M unit :=
  do st <- get;
  for_each
    (filter (fun r => String.eqb (fst r) (ev_type e)) (listeners st))
    (fun r =>
       do st1 <- get;
       if existsb (registered (fst r) (snd r)) (listeners st1) then
         reporting
           match snd r with
           | Scoped sc => call_scoped sc e
           | HandleReceiveMessage => handler e
           end
       else ret tt).

(** A CustomEvent has no [data]: should one reach [handleReceiveMessage]
    (its type would have to be [message]), [JSON.parse(undefined)] throws
    before anything is dispatched. *)
Definition handleCustomEvent : event -> M unit :=
  handleReceiveMessage_with (fun _ => lift Unmodelled).

Definition dispatchEvent (e : event) : M unit :=
  do _ <- emit (Dispatched e);
  call_listeners handleCustomEvent e.

Definition handleReceiveMessage : event -> M unit :=
  handleReceiveMessage_with dispatchEvent.

(** The transport delivering a message event to the global object. *)
Definition deliver (origin data : string) (source : jsval) : M unit :=
  call_listeners handleReceiveMessage (MessageEvent origin data source).

(** Lines 205-216. *)
Definition listen (namespace : string) : M unit :=
  do st <- get;
  do _ <- match indexOf namespace (messageNamespaces st) with
          | None =>
              do _ <- modify (set_messageNamespaces
                                (messageNamespaces st ++ [namespace]));
              do st1 <- get;
              do re <- lift (compileNamespaceRegExp (messageNamespaces st1));
              modify (set_messageNamespacesRegex re)
          | Some _ => ret tt
          end;
  do st2 <- get;
  if negb (listening st2) then
    do _ <- addEventListener "message" HandleReceiveMessage;
    modify (set_listening true)
  else ret tt.

(** Lines 222-235. *)
Definition stopListening (namespace : string) : M unit :=
  do st <- get;
  match indexOf namespace (messageNamespaces st) with
  | Some index =>
      do _ <- modify (set_messageNamespaces
                        (splice1 index (messageNamespaces st)));
      do st1 <- get;
      if negb (Nat.eqb (length (messageNamespaces st1)) 0) then
        do re <- lift (compileNamespaceRegExp (messageNamespaces st1));
        modify (set_messageNamespacesRegex re)
      else
        do _ <- removeEventListener "message" HandleReceiveMessage;
        modify (set_listening false)
  | None => ret tt
  end.

(** The [targets] argument of [proxy]: an array of frames or one frame. *)
Inductive targets_arg : Type :=
| OneTarget (w : window)
| TargetArray (ws : list window).

(** Lines 243-262.  [proxies] holds the [targets] of the entries that
    [proxy] created.  When the namespace names a member of
    [Object.prototype], that member is what [proxies[namespace]] finds: the
    destinations are appended to its [targets] (after [undefined] when it
    has none), which is recorded as the effect [Extended], and no entry is
    created. *)
Definition proxy (namespace : string) (targets : targets_arg) : M unit :=
  do _ <- listen namespace;
  let targets :=
    match targets with
    | TargetArray ws => ws
    | OneTarget w => [w]
    end in
  do st <- get;
  match get_proxy st namespace with
  | OwnEntry previous =>
      modify (set_proxies (<[namespace := previous ++ targets]> (proxies st)))
  | NoEntry =>
      modify (set_proxies (<[namespace := targets]> (proxies st)))
  | InheritedMember => emit (Extended namespace targets)
  end.

End Frames.

(** ** Notions used by the properties *)

(** States reached from the initial one by the two origin operations,
    however each call completes. *)
Inductive origins_reachable : State -> Prop :=
| reach_initial : origins_reachable initial
| reach_add st origin :
    origins_reachable st ->
    origins_reachable (final (addPostMessageOrigin origin st))
| reach_remove st origin :
    origins_reachable st ->
    origins_reachable (final (removePostMessageOrigin origin st)).

Definition wildcard_sole (st : State) : Prop :=
  In ALLOW_WILDCARD (allowedOrigins st) -> allowedOrigins st = [ALLOW_WILDCARD].

(** *** Patterns made of literal characters

    Origins and namespaces are spliced into pattern text.  When they contain
    no syntax character other than [.], each character stands for one atom
    and the list stands for the alternatives that [|] separates. *)

Definition plain_char (c : ascii) : bool :=
  match Regex.classify c with
  | Regex.TLiteral | Regex.TDot => true
  | _ => false
  end.

Definition plain (s : string) : bool :=
  forallb plain_char (list_ascii_of_string s).

Definition atom (c : ascii) : Regex.regex :=
  match Regex.classify c with
  | Regex.TDot => Regex.AnyChar
  | _ => Regex.Char c
  end.

Definition atoms (s : string) : list Regex.regex :=
  map atom (list_ascii_of_string s).

(** Whether the atom of pattern character [c] matches [x]. *)
Definition atom_matches (ic : bool) (c x : ascii) : bool :=
  match Regex.classify c with
  | Regex.TDot => negb (Chars.is_line_terminator x)
  | _ => Chars.char_matches ic c x
  end.

(** Whether the atoms of [p] match [m], character by character. *)
Fixpoint pattern_matches (ic : bool) (p m : list ascii) : bool :=
  match p, m with
  | [], [] => true
  | c :: p', x :: m' => atom_matches ic c x && pattern_matches ic p' m'
  | _, _ => false
  end.

(** The parser on literal characters and bars: what it holds after them. *)
Fixpoint feed (p : list ascii) (alts terms : list Regex.regex) (q : Regex.qstate)
  : list Regex.regex * list Regex.regex * Regex.qstate :=
  match p with
  | [] => (alts, terms, q)
  | c :: rest =>
      match Regex.classify c with
      | Regex.TBar =>
          feed rest (Regex.mk_seq (rev terms) :: alts) [] Regex.NoAtom
      | _ => feed rest alts (atom c :: terms) Regex.HasAtom
      end
  end.

(** The alternatives that the parser builds from [items] joined with [|],
    when [front] has been read before them and [back] comes after. *)
Fixpoint alternatives (front back : list Regex.regex) (items : list string)
  : list Regex.regex :=
  match items with
  | [] => [Regex.mk_seq (front ++ back)]
  | [item] => [Regex.mk_seq (front ++ atoms item ++ back)]
  | item :: rest =>
      Regex.mk_seq (front ++ atoms item) :: alternatives [] back rest
  end.

(** The terms of [^http(s)?:\/\/]. *)
Definition origin_front : list Regex.regex :=
  [Regex.InputStart; Regex.Char "h"; Regex.Char "t"; Regex.Char "t";
   Regex.Char "p";
   Regex.Alt (Regex.mk_alt [Regex.mk_seq [Regex.Char "s"]]) Regex.Empty;
   Regex.Char ":"; Regex.Char "/"; Regex.Char "/"].

(** What [compileNamespaceRegExp] and [compileOriginRegExp] build from
    items made of literal characters. *)
Definition namespace_matcher (namespaces : list string) : Regex.RegExp :=
  {| Regex.tree :=
       Regex.mk_alt
         [Regex.mk_seq [Regex.Char ".";
                        Regex.mk_alt (alternatives [] [] namespaces);
                        Regex.InputEnd]];
     Regex.ignoreCase := false |}.

Definition origin_matcher (origins : list string) : Regex.RegExp :=
  {| Regex.tree :=
       Regex.mk_alt (alternatives origin_front [Regex.InputEnd] origins);
     Regex.ignoreCase := true |}.

Definition plain_or_bar (c : ascii) : bool :=
  match Regex.classify c with
  | Regex.TLiteral | Regex.TDot | Regex.TBar => true
  | _ => false
  end.

(** The origin check of the dispatcher, as a verdict on an origin string. *)
Definition origin_accepted (env : Env) (st : State) (origin : string) : bool :=
  negb (origin_rejected env st (MessageEvent origin "" JUndefined)).

(** The text [http://] or [https://], in any letter case. *)
Definition is_scheme (s : list ascii) : bool :=
  pattern_matches true (list_ascii_of_string "http://") s
  || pattern_matches true (list_ascii_of_string "https://") s.

(** The matcher in the state is the one compiled from the trusted origins. *)
Definition origins_current (st : State) : Prop :=
  compileOriginRegExp (allowedOrigins st) = Ok (postMessageAllowedOriginRegex st).

(** A string without line terminator. *)
Fixpoint one_line (s : string) : bool :=
  match s with
  | EmptyString => true
  | String c rest => negb (Chars.is_line_terminator c) && one_line rest
  end.

(** A type has a namespace suffix when it contains a [.] followed by at
    least one more character up to its end, on one line. *)
Fixpoint has_namespace_suffix (type : string) : bool :=
  match type with
  | EmptyString => false
  | String c rest =>
      (Ascii.eqb c "." && negb (String.eqb rest "") && one_line rest)
      || has_namespace_suffix rest
  end.

(** A namespace suffix as [RE_HAS_NAMESPACE] recognises it: the type is an
    event name, a [.] and at least one character up to the end, none of
    them a line terminator. *)
Definition namespace_suffix (type : string) : Prop :=
  exists event namespace,
    type = event +:+ "." +:+ namespace
    /\ namespace <> "" /\ one_line namespace = true.

(** Options that the defaults can be assigned into. *)
Definition object_or_omitted (options : value) : bool :=
  match options with
  | VUndefined | VObj _ | VArr _ => true
  | _ => false
  end.

(** [postMessage] sends exactly one envelope, of type [sent_type], to the
    target and for any origin, and changes nothing. *)
Definition sends_with_type (target : window) (type : string)
           (data options : value) (st : State) (sent_type : string) : Prop :=
  exists defaulted,
    postMessage target type data options st =
    (st,
     [Sent target
           (JSON.stringify
              (VObj [("type", VStr sent_type); ("data", data);
                     ("defaultedOptions", defaulted)]))
           (VStr "*")],
     Ok tt).

Definition default_namespace_spec (target : window) (type : string)
           (data options : value) (st : State) : Prop :=
  (namespace_suffix type -> sends_with_type target type data options st type)
  /\ (~ namespace_suffix type ->
      sends_with_type target type data options st (type +:+ ".postMessage")).

(** [a.b], a line feed and [c]. *)
Definition line_feed : ascii := "010"%char.
Definition two_line_type : string := "a.b" +:+ String line_feed "c".

(** What the origin check does in a state: trusted hosts are accepted
    behind a scheme, the own origin and [null] are accepted, and a single
    trusted host lets nothing else through. *)
Definition origin_check_spec (env : Env) (st : State) : Prop :=
  (forall host scheme text,
      In host (allowedOrigins st) ->
      is_scheme (list_ascii_of_string scheme) = true ->
      pattern_matches true (list_ascii_of_string host)
                      (list_ascii_of_string text) = true ->
      origin_accepted env st (scheme +:+ text) = true)
  /\ (forall host,
         In host (allowedOrigins st) -> one_line host = true ->
         origin_accepted env st ("http://" +:+ host) = true
         /\ origin_accepted env st ("https://" +:+ host) = true)
  /\ origin_accepted env st (location_origin env) = true
  /\ origin_accepted env st "null" = true
  /\ (forall host origin,
         allowedOrigins st = [host] ->
         origin_accepted env st origin = true ->
         origin = location_origin env \/ origin = "null"
         \/ exists scheme text,
              origin = scheme +:+ text
              /\ is_scheme (list_ascii_of_string scheme) = true
              /\ pattern_matches true (list_ascii_of_string host)
                                 (list_ascii_of_string text) = true).

(** A name made of literal characters only: not empty, no [.], no syntax
    character, no line terminator. *)
Definition name_char (c : ascii) : bool :=
  match Regex.classify c with
  | Regex.TLiteral => negb (Chars.is_line_terminator c)
  | _ => false
  end.

Definition simple_name (s : string) : bool :=
  negb (String.eqb s "") && forallb name_char (list_ascii_of_string s).

(** The matcher in the state is the one compiled from the active
    namespaces, as far as there are any. *)
Definition namespaces_current (st : State) : Prop :=
  messageNamespaces st <> [] ->
  compileNamespaceRegExp (messageNamespaces st) = Ok (messageNamespacesRegex st).

Definition handler_attached (st : State) : Prop :=
  In ("message", HandleReceiveMessage) (listeners st).

(** A state whose namespaces are made of literal characters and [.], with
    the matcher compiled from them and the handler attached when the flag
    says so. *)
Definition consistent (st : State) : Prop :=
  forallb plain (messageNamespaces st) = true
  /\ namespaces_current st
  /\ (listening st = true -> handler_attached st).

(** The destinations a [targets] argument stands for. *)
Definition targets_of (targets : targets_arg) : list window :=
  match targets with
  | TargetArray ws => ws
  | OneTarget w => [w]
  end.

Definition previous_targets (st : State) (namespace : string) : list window :=
  match proxies st !! namespace with
  | Some ws => ws
  | None => []
  end.

(** Messages on [namespace] are forwarded to [ws]: an accepted message
    event whose type is an event name, a [.] and the namespace, and whose
    [options] is absent, an object or an array, is sent to each destination
    in turn, with the same type and data, before the local event is
    emitted. *)
Definition forwards (env : Env) (st : State) (namespace : string)
           (ws : list window) : Prop :=
  forall event origin body source message data options,
    simple_name event = true ->
    origin_rejected env st (MessageEvent origin body source) = false ->
    JSON.parse body = Ok message ->
    get_prop message "type" = Ok (VStr (event +:+ "." +:+ namespace)) ->
    get_prop message "data" = Ok data ->
    get_prop message "options" = Ok options ->
    object_or_omitted options = true ->
    exists defaulted rest,
      trace (handleReceiveMessage env (MessageEvent origin body source) st) =
      map (fun w =>
             Sent w
                  (JSON.stringify
                     (VObj [("type", VStr (event +:+ "." +:+ namespace));
                            ("data", data);
                            ("defaultedOptions", defaulted)]))
                  (VStr "*")) ws
      ++ Dispatched (CustomEvent (event +:+ "." +:+ namespace) data source) :: rest.

(** What two successive [proxy] calls on a namespace achieve. *)
Definition proxy_spec (env : Env) (st : State) (namespace : string)
           (a b : targets_arg) : Prop :=
  let r1 := proxy namespace a st in
  let r2 := proxy namespace b (final r1) in
  let all := previous_targets st namespace ++ targets_of a ++ targets_of b in
  (completion r1 = Ok tt /\ completion r2 = Ok tt)
  /\ proxies (final r2) !! namespace = Some all
  /\ (forall other, other <> namespace ->
                    proxies (final r2) !! other = proxies st !! other)
  /\ (In namespace (messageNamespaces (final r1))
      /\ listening (final r1) = true
      /\ In ("message", HandleReceiveMessage) (listeners (final r1)))
  /\ (In namespace (messageNamespaces (final r2))
      /\ listening (final r2) = true
      /\ In ("message", HandleReceiveMessage) (listeners (final r2)))
  /\ forwards env (final r2) namespace all.

(** ** Example inputs *)

(** Two concrete origins added, one removed, then a wildcard added. *)
Definition origins_example : State :=
  final (addPostMessageOrigin "*"
    (final (removePostMessageOrigin "a.example"
      (final (addPostMessageOrigin "b.example"
        (final (addPostMessageOrigin "a.example" initial))))))).

(** The text handed to the transport by the first send of a computation. *)
Definition sent_text (r : State * list effect * result unit) : string :=
  match trace r with
  | Sent _ text _ :: _ => text
  | _ => ""
  end.

Definition parent_window : window := 0.

(** A parent document at [https://parent.example] that embeds a frame served
    from [https://child.example]: every window but its own belongs to
    another origin, and the user functions leave the module alone. *)
Definition parent_env (arguments : option (list jsval)) : Env :=
  {| location_origin := "https://parent.example";
     module_arguments := arguments;
     cross_origin := fun w => negb (Nat.eqb w parent_window);
     user_code := fun _ _ _ => ret tt |}.

Definition child_window : window := 1.
Definition child_origin : string := "https://child.example".

(** [{x: 1}]. *)
Definition payload : value := VObj [("x", VNum (SafeInt 1 eq_refl))].

(** What the frame sends with [postMessage(window.parent, type, payload)]. *)
Definition text_of (type : string) : string :=
  sent_text (postMessage parent_window type payload VUndefined initial).

(** The message above arriving [n] times at the parent. *)
Fixpoint arrivals (env : Env) (type : string) (n : nat) : M unit :=
  match n with
  | O => ret tt
  | S n' =>
      do _ <- deliver env child_origin (text_of type) (JWindow child_window);
      arrivals env type n'
  end.

(** The usage of the documentation: the parent listens on [dfp], subscribes
    once to [init.dfp] with the user function [f], and the message arrives
    [n] times. *)
Definition documented_usage (env : Env) (f n : nat) : M unit :=
  do _ <- listen "dfp";
  do _ <- receiveMessageOnce (JString "init.dfp") (JFunction f) JUndefined JUndefined;
  arrivals env "init.dfp" n.

(** The same with the sending frame given as [source]. *)
Definition usage_with_source (env : Env) (f n : nat) : M unit :=
  do _ <- listen "dfp";
  do _ <- receiveMessageOnce (JWindow child_window) (JString "init.dfp")
                             (JFunction f) JUndefined;
  arrivals env "init.dfp" n.

(** The subscription cancelled before anything arrives. *)
Definition cancelled_usage (env : Env) (f n : nat) : M unit :=
  do _ <- listen "dfp";
  do listener <- receiveMessageOnce (JString "init.dfp") (JFunction f)
                                    JUndefined JUndefined;
  do _ <- off listener;
  arrivals env "init.dfp" n.

(** [listen("dfp")] then [stopListening("dfp")] in the initial state, and
    the default namespace stopped after them. *)
Definition listen_then_stop : M unit :=
  do _ <- listen "dfp"; stopListening "dfp".

Definition after_listen_stop : State := final (listen_then_stop initial).

Definition after_stop_default : State :=
  final (stopListening DEFAULT_MESSAGE_NAMESPACE after_listen_stop).

(** Two hosts trusted, and one host trusted. *)
Definition two_hosts : State :=
  final (addPostMessageOrigin "b.example"
    (final (addPostMessageOrigin "a.example" initial))).

Definition one_host : State :=
  final (addPostMessageOrigin "example.com" initial).

(** A message of the given type carrying the payload and nothing else. *)
Definition envelope_text (type : string) : string :=
  JSON.stringify (VObj [("type", VStr type); ("data", payload)]).

(** A state in which the namespace [dfp] already has a destination. *)
Definition with_proxy : State :=
  final (proxy "dfp" (OneTarget 3) initial).

(** [proxy("constructor", 4)] followed by [proxy("constructor", [5, 6])],
    from the initial state. *)
Definition after_two_proxies : State * list effect * result unit :=
  proxy "constructor" (TargetArray [5; 6])
        (final (proxy "constructor" (OneTarget 4) initial)).

(** A state in which [dfp] is the only active namespace, the handler is
    attached and one subscription to [init.dfp] is registered. *)
Definition subscribed_on_dfp : State :=
  final ((do _ <- listen "dfp";
          do _ <- stopListening DEFAULT_MESSAGE_NAMESPACE;
          receiveMessage (JString "init.dfp") (JFunction 7) JUndefined JUndefined)
           initial).

(** A state in which the namespaces [dfp] and [x] each have a destination. *)
Definition with_two_proxies : State :=
  final (proxy "x" (OneTarget 9) with_proxy).

(** The local event emitted for the message above. *)
Definition init_dfp_event : event :=
  CustomEvent "init.dfp" payload (JWindow child_window).

(** The arrow function [receiveMessageOnce] built in [documented_usage]. *)
Definition once_wrapper : jsval :=
  JOnce JUndefined {| h_type := "init.dfp"; h_scoped := 0 |}.

(** ** Further usages *)

(** A repeated subscription: [receiveMessage("init.dfp", f, context)], and
    the message arriving [n] times. *)
Definition repeated_usage (env : Env) (f : nat) (context : jsval) (n : nat)
  : M unit :=
  do _ <- listen "dfp";
  do _ <- receiveMessage (JString "init.dfp") (JFunction f) context JUndefined;
  arrivals env "init.dfp" n.

(** The same effects [n] times over. *)
Fixpoint times {A} (n : nat) (l : list A) : list A :=
  match n with
  | O => []
  | S n' => l ++ times n' l
  end.

(** A subscription restricted to a source, and one message from [sender]. *)
Definition sourced_usage (env : Env) (source : jsval) (f : nat) (sender : jsval)
  : M unit :=
  do _ <- listen "dfp";
  do _ <- receiveMessage source (JString "init.dfp") (JFunction f) JUndefined;
  deliver env child_origin (text_of "init.dfp") sender.

(** A host added to the initial state and removed again. *)
Definition added_then_removed (host : string) : State :=
  final (removePostMessageOrigin host
           (final (addPostMessageOrigin host initial))).

(** A host added to the initial state, then a wildcard. *)
Definition host_then_wildcard (host wildcard : string) : State :=
  final (addPostMessageOrigin wildcard
           (final (addPostMessageOrigin host initial))).

(** An origin that is neither the own one nor [null] is accepted only as a
    scheme followed by text that [host] matches. *)
Definition accepts_only (env : Env) (st : State) (host : string) : Prop :=
  forall origin,
    origin_accepted env st origin = true ->
    origin = location_origin env \/ origin = "null"
    \/ exists scheme text,
         origin = scheme +:+ text
         /\ is_scheme (list_ascii_of_string scheme) = true
         /\ pattern_matches true (list_ascii_of_string host)
                            (list_ascii_of_string text) = true.

(** The settings of the module are the same in [st1] as in [st], and
    [st1] has no listener that [st] had not. *)
Definition settings_kept (st st1 : State) : Prop :=
  allowedOrigins st1 = allowedOrigins st
  /\ postMessageAllowedOriginRegex st1 = postMessageAllowedOriginRegex st
  /\ messageNamespaces st1 = messageNamespaces st
  /\ messageNamespacesRegex st1 = messageNamespacesRegex st
  /\ proxies st1 = proxies st
  /\ listening st1 = listening st
  /\ closures st1 = closures st
  /\ (forall r, In r (listeners st1) -> In r (listeners st)).

Definition keeps_settings {A} (m : M A) : Prop :=
  forall st, settings_kept st (final (m st)).

(** The user functions of the environment leave the settings alone,
    whatever else they do. *)
Definition callbacks_keep_settings (env : Env) : Prop :=
  forall f thisArg args, keeps_settings (user_code env f thisArg args).

(** The types that a set of active namespaces lets through. *)
Definition namespace_filter_spec (namespaces : list string) : Prop :=
  exists re,
    compileNamespaceRegExp namespaces = Ok re
    /\ forall type,
         Regex.test re type = true <->
         exists event namespace,
           In namespace namespaces /\ type = event +:+ "." +:+ namespace.

(** A character that [JSON.stringify] writes as itself or as a
    two-character escape, and a string made of such characters. *)
Definition escapable (c : ascii) : bool :=
  let n := Chars.code c in
  ((32 <=? n) || (n =? 8) || (n =? 9) || (n =? 10) || (n =? 12) || (n =? 13))%nat.

Definition text_string (s : string) : bool :=
  forallb escapable (list_ascii_of_string s).

(** Message data without structure: [null], a boolean or a string. *)
Definition scalar (v : value) : bool :=
  match v with
  | VNull | VBool _ => true
  | VStr s => text_string s
  | _ => false
  end.

(** The text [postMessage] sends when the caller gives no options. *)
Definition envelope (type : string) (data : value) : string :=
  JSON.stringify (VObj [("type", VStr type); ("data", data);
                        ("defaultedOptions", VObj [("targetOrigin", VStr "*")])]).

(** A message sent from a module in state [sender] and received in state
    [st]: the text goes to [target] for any origin; the receiving handler
    forwards the same text to the destinations recorded under [key] and then
    emits the local event with the type and the data of the sender. *)
Definition round_trip_spec (env : Env) (st sender : State) (target : window)
           (type : string) (data : value) (origin : string) (source : jsval)
           (key : string) : Prop :=
  exists text,
    postMessage target type data VUndefined sender =
    (sender, [Sent target text (VStr "*")], Ok tt)
    /\ exists rest,
         trace (handleReceiveMessage env (MessageEvent origin text source) st) =
         map (fun w => Sent w text (VStr "*")) (previous_targets st key)
         ++ Dispatched (CustomEvent type data source) :: rest.

(** What a failed [addPostMessageOrigin] leaves behind, and what the next
    one does. *)
Definition failed_origin_spec (st : State) (origin : string) (e : exn) : Prop :=
  let st1 := set_allowedOrigins (allowedOrigins st ++ [origin]) st in
  addPostMessageOrigin origin st = (st1, [], Throws e)
  /\ addPostMessageOrigin origin st1 = (st1, [], Ok tt).

(** The closures registered so far were all numbered below the counter. *)
Definition ids_fresh (st : State) : Prop :=
  forall type sc, In (type, Scoped sc) (listeners st) -> sc_id sc < closures st.

(** [off()] of the handle that led from [st] to [st1] gives the listeners of
    [st] back. *)
Definition subscription_undone_spec (st st1 : State) (h : handle) : Prop :=
  listeners (final (off h st1)) = listeners st
  /\ closures st1 = S (closures st)
  /\ ids_fresh st1.

(** What a failed [listen] leaves behind, and what the next one does. *)
Definition failed_listen_spec (st : State) (namespace : string) (e : exn) : Prop :=
  let st1 := set_messageNamespaces (messageNamespaces st ++ [namespace]) st in
  listen namespace st = (st1, [], Throws e)
  /\ completion (listen namespace st1) = Ok tt
  /\ messageNamespaces (final (listen namespace st1)) =
     messageNamespaces st ++ [namespace]
  /\ messageNamespacesRegex (final (listen namespace st1)) =
     messageNamespacesRegex st
  /\ listening (final (listen namespace st1)) = true.

(** What stopping the only active namespace does. *)
Definition last_namespace_spec (st : State) (namespace : string) : Prop :=
  completion (stopListening namespace st) = Ok tt
  /\ trace (stopListening namespace st) = []
  /\ messageNamespaces (final (stopListening namespace st)) = []
  /\ listening (final (stopListening namespace st)) = false
  /\ ~ handler_attached (final (stopListening namespace st))
  /\ messageNamespacesRegex (final (stopListening namespace st)) =
     messageNamespacesRegex st
  /\ (forall type sc,
         In (type, Scoped sc) (listeners st) ->
         In (type, Scoped sc) (listeners (final (stopListening namespace st)))).

(** The registration that [off] of a handle removes. *)
Definition registration_of (h : handle) (r : string * listener) : Prop :=
  fst r = h_type h
  /\ exists sc, snd r = Scoped sc /\ sc_id sc = h_scoped h.

(** * Properties *)

(** ** Built-in helpers *)

Lemma indexOf_None x l : indexOf x l = None <-> ~ In x l.
Proof.
  induction l as [|y l IH]; simpl.
  - tauto.
  - destruct (String.eqb_spec y x) as [->|Hne].
    + split; [discriminate | intros H; exfalso; apply H; now left].
    + destruct (indexOf x l) eqn:E.
      * split; [discriminate|]. intros H. exfalso. apply H. right.
        destruct (in_dec string_dec x l) as [Hin|Hnin]; [exact Hin|].
        apply IH in Hnin. discriminate.
      * split; [|reflexivity]. intros _ [Heq|Hin]; [congruence|].
        now apply IH in Hin.
Qed.

Lemma in_splice1 {A} (i : nat) (l : list A) y : In y (splice1 i l) -> In y l.
Proof.
  revert i. induction l as [|z l IH]; simpl; intros i Hy; [destruct i; exact Hy|].
  destruct i; simpl in Hy; [now right|].
  destruct Hy as [->|Hy]; [now left | right; eauto].
Qed.

(** ** Computations *)

(** Laws of the computations. *)

Lemma bind_get {A} (f : State -> M A) st : bind get f st = f st st.
Proof. unfold bind, get. now destruct (f st st) as [[? ?] ?]. Qed.

Lemma bind_ret {A B} (a : A) (f : A -> M B) st : bind (ret a) f st = f a st.
Proof. unfold bind, ret. now destruct (f a st) as [[? ?] ?]. Qed.

Lemma bind_modify {B} g (f : unit -> M B) st :
  bind (modify g) f st = f tt (g st).
Proof. unfold bind, modify. now destruct (f tt (g st)) as [[? ?] ?]. Qed.

Lemma bind_lift_Ok {A B} (a : A) (f : A -> M B) st :
  bind (lift (Ok a)) f st = f a st.
Proof. unfold bind, lift. now destruct (f a st) as [[? ?] ?]. Qed.

Lemma bind_assoc {A B C} (m : M A) (f : A -> M B) (g : B -> M C) st :
  bind (bind m f) g st = bind m (fun x => bind (f x) g) st.
Proof.
  unfold bind. destruct (m st) as [[st1 t1] [a| |]]; try reflexivity.
  destruct (f a st1) as [[st2 t2] [b| |]]; try reflexivity.
  destruct (g b st2) as [[st3 t3] r]. now rewrite app_assoc.
Qed.

Lemma bind_Ok {A B} (m : M A) (f : A -> M B) st st1 a :
  m st = (st1, [], Ok a) -> bind m f st = f a st1.
Proof.
  intros H. unfold bind. rewrite H. now destruct (f a st1) as [[? ?] ?].
Qed.

(** ** The trusted origins *)

Lemma removePostMessageOrigin_origins origin st :
  allowedOrigins (final (removePostMessageOrigin origin st)) =
  match indexOf origin (allowedOrigins st) with
  | Some index => splice1 index (allowedOrigins st)
  | None => allowedOrigins st
  end.
Proof.
  unfold removePostMessageOrigin, bind, get, modify, lift, final; simpl.
  destruct (indexOf origin (allowedOrigins st)); simpl; [|reflexivity].
  destruct (compileOriginRegExp _); reflexivity.
Qed.

Lemma isWildcard_ALLOW_WILDCARD : isWildcard ALLOW_WILDCARD = true.
Proof. vm_compute. reflexivity. Qed.

Lemma addPostMessageOrigin_wildcard origin st :
  isWildcard origin = true ->
  allowedOrigins (final (addPostMessageOrigin origin st)) = [ALLOW_WILDCARD].
Proof.
  intros H. unfold addPostMessageOrigin. rewrite H. reflexivity.
Qed.

(** A concrete origin that is absent: the wildcard is removed first, and the
    origin is appended unless that removal failed to recompile the matcher. *)
Lemma addPostMessageOrigin_concrete origin st :
  isWildcard origin = false ->
  indexOf origin (allowedOrigins st) = None ->
  let removed := allowedOrigins (final (removePostMessageOrigin ALLOW_WILDCARD st)) in
  allowedOrigins (final (addPostMessageOrigin origin st)) =
  match completion (removePostMessageOrigin ALLOW_WILDCARD st) with
  | Ok _ => removed ++ [origin]
  | _ => removed
  end.
Proof.
  intros H E. unfold addPostMessageOrigin. rewrite H.
  unfold bind at 1. unfold get at 1. rewrite E.
  unfold bind at 1.
  destruct (removePostMessageOrigin ALLOW_WILDCARD st) as [[st1 t1] r1].
  unfold final, completion; simpl.
  destruct r1; simpl; try reflexivity.
  unfold bind, get, modify, lift; simpl.
  destruct (compileOriginRegExp _); reflexivity.
Qed.

Lemma addPostMessageOrigin_present origin st i :
  isWildcard origin = false ->
  indexOf origin (allowedOrigins st) = Some i ->
  final (addPostMessageOrigin origin st) = st.
Proof.
  intros H E. unfold addPostMessageOrigin. rewrite H.
  unfold bind, get. rewrite E. reflexivity.
Qed.

Lemma removed_wildcard_absent st :
  wildcard_sole st ->
  ~ In ALLOW_WILDCARD
      (allowedOrigins (final (removePostMessageOrigin ALLOW_WILDCARD st))).
Proof.
  intros Hinv. rewrite removePostMessageOrigin_origins.
  destruct (indexOf ALLOW_WILDCARD (allowedOrigins st)) eqn:E.
  - assert (Hin : In ALLOW_WILDCARD (allowedOrigins st)).
    { destruct (in_dec string_dec ALLOW_WILDCARD (allowedOrigins st)) as [Hin|Hn];
        [exact Hin|]. apply indexOf_None in Hn. congruence. }
    rewrite (Hinv Hin) in *. simpl in E. inversion E; subst. simpl. tauto.
  - now apply indexOf_None.
Qed.

Lemma addPostMessageOrigin_preserves origin st :
  wildcard_sole st -> wildcard_sole (final (addPostMessageOrigin origin st)).
Proof.
  intros Hinv. destruct (isWildcard origin) eqn:W.
  - intros _. now apply addPostMessageOrigin_wildcard.
  - destruct (indexOf origin (allowedOrigins st)) eqn:E.
    + now rewrite (addPostMessageOrigin_present origin st n W E).
    + intros Hin. exfalso.
      rewrite (addPostMessageOrigin_concrete origin st W E) in Hin.
      pose proof (removed_wildcard_absent st Hinv) as Habs.
      assert (Hne : origin <> ALLOW_WILDCARD).
      { intros ->. rewrite isWildcard_ALLOW_WILDCARD in W. discriminate. }
      destruct (completion _); try tauto.
      apply in_app_or in Hin. destruct Hin as [Hin|[Heq|[]]]; [tauto|congruence].
Qed.

Lemma removePostMessageOrigin_preserves origin st :
  wildcard_sole st -> wildcard_sole (final (removePostMessageOrigin origin st)).
Proof.
  intros Hinv Hin. rewrite removePostMessageOrigin_origins in *.
  destruct (indexOf origin (allowedOrigins st)) eqn:E; [|now apply Hinv].
  apply in_splice1 in Hin as Hin'. rewrite (Hinv Hin') in *.
  cbn [indexOf] in E. destruct (String.eqb ALLOW_WILDCARD origin); [|discriminate].
  inversion E; subst. destruct Hin.
Qed.

Lemma origins_reachable_wildcard_sole st :
  origins_reachable st -> wildcard_sole st.
Proof.
  induction 1.
  - intros _. reflexivity.
  - now apply addPostMessageOrigin_preserves.
  - now apply removePostMessageOrigin_preserves.
Qed.

(** C10.  In every state reached from the initial one through
    [addPostMessageOrigin] and [removePostMessageOrigin], the wildcard origin,
    when present in the trusted set, is its only member; adding a wildcard
    collapses the set to the single wildcard entry; and adding a concrete
    origin while the wildcard is present removes the wildcard and leaves the
    concrete origin alone in the set. *)
Theorem C10_wildcard_is_sole_member st :
  origins_reachable st ->
  wildcard_sole st
  /\ (forall origin, isWildcard origin = true ->
        allowedOrigins (final (addPostMessageOrigin origin st)) = [ALLOW_WILDCARD])
  /\ (forall origin, isWildcard origin = false ->
        In ALLOW_WILDCARD (allowedOrigins st) ->
        allowedOrigins (final (addPostMessageOrigin origin st)) = [origin]).
Proof.
  intros Hreach. pose proof (origins_reachable_wildcard_sole st Hreach) as Hinv.
  split; [exact Hinv|]. split.
  - intros origin W. now apply addPostMessageOrigin_wildcard.
  - intros origin W Hin.
    assert (Hne : origin <> ALLOW_WILDCARD).
    { intros ->. rewrite isWildcard_ALLOW_WILDCARD in W. discriminate. }
    pose proof (Hinv Hin) as Hl.
    assert (E : indexOf origin (allowedOrigins st) = None).
    { apply indexOf_None. rewrite Hl. intros [Heq|[]]. congruence. }
    rewrite (addPostMessageOrigin_concrete origin st W E).
    unfold removePostMessageOrigin, bind, get, modify, lift, final, completion.
    rewrite Hl. reflexivity.
Qed.

Lemma C10_witness :
  origins_reachable origins_example
  /\ (wildcard_sole origins_example
      /\ (forall origin, isWildcard origin = true ->
            allowedOrigins (final (addPostMessageOrigin origin origins_example))
            = [ALLOW_WILDCARD])
      /\ (forall origin, isWildcard origin = false ->
            In ALLOW_WILDCARD (allowedOrigins origins_example) ->
            allowedOrigins (final (addPostMessageOrigin origin origins_example))
            = [origin])).
Proof.
  split.
  - unfold origins_example. repeat constructor.
  - apply (C10_wildcard_is_sole_member origins_example).
    unfold origins_example. repeat constructor.
Defined.

(** ** Sending *)

Lemma get_member_set_member k v members :
  get_member k (set_member k v members) = v.
Proof.
  unfold get_member.
  induction members as [|[k' v'] members IH]; simpl.
  - now rewrite String.eqb_refl.
  - destruct (String.eqb_spec k k') as [->|Hne]; simpl.
    + now rewrite String.eqb_refl.
    + destruct (String.eqb_spec k' k) as [->|_]; [congruence|exact IH].
Qed.

(** Whatever the caller put in [options], the defaults have the last word. *)
Lemma assign_defaults_object members :
  assign_defaults (VObj members) =
  Ok (VObj (set_member "targetOrigin" (VStr "*") members), VStr "*").
Proof.
  unfold assign_defaults. simpl. now rewrite get_member_set_member.
Qed.

Lemma postMessage_object target type data members st :
  postMessage target type data (VObj members) st =
  (st,
   [Sent target
         (JSON.stringify
            (VObj [("type",
                    VStr (if negb (Regex.test RE_HAS_NAMESPACE type)
                          then type +:+ DEFAULT_MESSAGE_NAMESPACE else type));
                   ("data", data);
                   ("defaultedOptions",
                    VObj (set_member "targetOrigin" (VStr "*") members))]))
         (VStr "*")],
   Ok tt).
Proof.
  unfold postMessage, bind, lift, emit.
  rewrite assign_defaults_object. reflexivity.
Qed.

(** C2.  The text handed to the transport is the serialization of an object
    whose three properties are named type, data and defaultedOptions, not
    type, data and options: read back, the message of the documented usage
    has no property named options. *)
Theorem C2_envelope_names_defaultedOptions :
  (forall target type data members st,
      exists type' defaulted,
        postMessage target type data (VObj members) st =
        (st,
         [Sent target
               (JSON.stringify
                  (VObj [("type", VStr type'); ("data", data);
                         ("defaultedOptions", VObj defaulted)]))
               (VStr "*")],
         Ok tt))
  /\ JSON.parse (text_of "init.dfp") =
     Ok (VObj [("type", VStr "init.dfp");
               ("data", payload);
               ("defaultedOptions", VObj [("targetOrigin", VStr "*")])])
  /\ (forall message, JSON.parse (text_of "init.dfp") = Ok message ->
                      get_prop message "options" = Ok VUndefined).
Proof.
  split; [|split].
  - intros. eexists _, _. apply postMessage_object.
  - vm_compute. reflexivity.
  - intros message. vm_compute. intros H. inversion H; subst. reflexivity.
Qed.

(** C3.  The target origin given to the transport is the default ["*"]
    whatever [targetOrigin] the caller supplied: the defaults are assigned
    over the caller's options. *)
Theorem C3_caller_targetOrigin_is_discarded :
  forall target type data members t st,
    exists text,
      postMessage target type data
                  (VObj (set_member "targetOrigin" (VStr t) members)) st =
      (st, [Sent target text (VStr "*")], Ok tt).
Proof.
  intros. eexists. apply postMessage_object.
Qed.

Example C3_failing_input :
  trace (postMessage child_window "init.dfp" payload
                     (VObj [("targetOrigin", VStr "https://child.example")])
                     initial) =
  [Sent child_window
        (JSON.stringify
           (VObj [("type", VStr "init.dfp"); ("data", payload);
                  ("defaultedOptions", VObj [("targetOrigin", VStr "*")])]))
        (VStr "*")].
Proof. vm_compute. reflexivity. Qed.

(** ** Subscriptions *)

(** C1.  In the documented usage the message arrives once and the user
    function is called once, but with no argument: neither the payload nor
    the event reaches it.  The local event that was dispatched does carry
    the payload. *)
Theorem C1_callback_called_without_payload :
  forall arguments f,
    trace (documented_usage (parent_env arguments) f 1 initial) =
    [Dispatched init_dfp_event; Called f once_wrapper []]
    /\ ev_detail init_dfp_event = payload.
Proof.
  intros. split; vm_compute; reflexivity.
Qed.

(** C7.  With the documented two-argument form the user function is called
    for each of two matching messages, and the subscription is still
    registered afterwards: the self-detaching arrow function has become
    the [this] of the call and is never run. *)
Theorem C7_documented_form_fires_on_every_message :
  forall arguments f,
    trace (documented_usage (parent_env arguments) f 2 initial) =
    [Dispatched init_dfp_event; Called f once_wrapper [];
     Dispatched init_dfp_event; Called f once_wrapper []]
    /\ length (listeners (final (documented_usage (parent_env arguments) f 2 initial))) = 2.
Proof.
  intros. split; vm_compute; reflexivity.
Qed.

(** The handle that [receiveMessageOnce] gives its arrow function is the one
    [receiveMessage] returns. *)
Lemma receiveMessage_returns source type callback context st st1 t h :
  receiveMessage source type callback context st = (st1, t, Ok h) ->
  returned_handle st source type = Ok h.
Proof.
  unfold receiveMessage, returned_handle.
  destruct source; cbv beta iota zeta;
    rewrite bind_get;
    (destruct (event_type_of _) as [ty| |];
     [rewrite bind_lift_Ok, bind_modify; unfold addEventListener;
      rewrite bind_modify; unfold ret; intros H; inversion H; reflexivity
     | unfold bind, lift; intros H; inversion H
     | unfold bind, lift; intros H; inversion H]).
Qed.

(** With a frame as first argument the arrow function is the callback: it
    calls the user function once, with the module-level arguments, and
    detaches. *)
Lemma once_with_source_fires_once :
  forall arguments f,
    trace (usage_with_source (parent_env (Some arguments)) f 2 initial) =
    [Dispatched init_dfp_event; Called f JUndefined arguments;
     Dispatched init_dfp_event].
Proof.
  intros. vm_compute. reflexivity.
Qed.

(** Cancelling before any message arrives: the user function is not called. *)
Lemma once_cancelled_never_fires :
  forall arguments f,
    trace (cancelled_usage (parent_env arguments) f 2 initial) =
    [Dispatched init_dfp_event; Dispatched init_dfp_event].
Proof.
  intros. vm_compute. reflexivity.
Qed.

(** ** The matcher *)

Section Matcher.

Variables (ic : bool) (total : nat).

Local Abbreviation run := (Regex.run ic total).

Lemma in_run_seq a b s r :
  In r (run (Regex.Seq a b) s) <-> exists m, In m (run a s) /\ In r (run b m).
Proof. simpl. apply in_flat_map. Qed.

Lemma in_run_alt a b s r :
  In r (run (Regex.Alt a b) s) <-> In r (run a s) \/ In r (run b s).
Proof. simpl. apply in_app_iff. Qed.

Lemma in_run_empty s r : In r (run Regex.Empty s) <-> r = s.
Proof. simpl. intuition congruence. Qed.

Lemma in_run_end s r : In r (run Regex.InputEnd s) <-> s = [] /\ r = [].
Proof. destruct s; simpl; intuition congruence. Qed.

Lemma in_run_start s r :
  In r (run Regex.InputStart s) <-> length s = total /\ r = s.
Proof.
  simpl. destruct (Nat.eqb_spec (length s) total); simpl; intuition congruence.
Qed.

Lemma in_run_mk_seq_app front back s r :
  In r (run (Regex.mk_seq (front ++ back)) s) <->
  exists m, In m (run (Regex.mk_seq front) s) /\ In r (run (Regex.mk_seq back) m).
Proof.
  revert s. induction front as [|a front IH]; intros s.
  - simpl. split.
    + intros H. exists s. split; [now left | exact H].
    + intros (m & [<-|[]] & H). exact H.
  - change (Regex.mk_seq ((a :: front) ++ back))
      with (Regex.Seq a (Regex.mk_seq (front ++ back))).
    change (Regex.mk_seq (a :: front)) with (Regex.Seq a (Regex.mk_seq front)).
    rewrite in_run_seq. split.
    + intros (m & Hm & H). apply IH in H as (m' & H1 & H2).
      exists m'. split; [|exact H2]. apply in_run_seq. eauto.
    + intros (m' & H1 & H2). apply in_run_seq in H1 as (m & Hm & H1).
      exists m. split; [exact Hm|]. apply IH. eauto.
Qed.

Lemma in_run_mk_alt alts s r :
  In r (run (Regex.mk_alt alts) s) <-> exists a, In a alts /\ In r (run a s).
Proof.
  induction alts as [|a alts IH].
  - simpl. split; [tauto | intros (a & [] & _)].
  - change (Regex.mk_alt (a :: alts)) with (Regex.Alt a (Regex.mk_alt alts)).
    rewrite in_run_alt, IH. split.
    + intros [H|(b & Hb & H)]; [exists a | exists b]; simpl; auto.
    + intros (b & [<-|Hb] & H); [now left | right; eauto].
Qed.

(** Rounds of [.]: any prefix without a line terminator can be consumed. *)
Lemma in_iterate_any fuel s r :
  length s <= fuel ->
  In r (Regex.iterate (run Regex.AnyChar) fuel s) <->
  exists m, s = m ++ r
            /\ forallb (fun c => negb (Chars.is_line_terminator c)) m = true.
Proof.
  revert s. induction fuel as [|fuel IH]; intros s Hlen.
  - destruct s; [|simpl in Hlen; lia]. simpl. split.
    + intros [<-|[]]. now exists [].
    + intros (m & Hm & _). left. symmetry in Hm.
      apply app_eq_nil in Hm. symmetry. tauto.
  - cbn [Regex.iterate]. split.
    + intros [<-|H]; [now exists []|].
      destruct s as [|x t]; [destruct H|]. simpl in H.
      destruct (Chars.is_line_terminator x) eqn:Ex; [destruct H|].
      simpl in H. rewrite app_nil_r in H.
      assert (Hlt : (length t <? S (length t))%nat = true)
        by (apply Nat.ltb_lt; lia).
      rewrite Hlt in H. apply IH in H as (m & -> & Hm); [|simpl in Hlen; lia].
      exists (x :: m). split; [reflexivity|]. simpl. now rewrite Ex.
    + intros (m & -> & Hm). destruct m as [|x m]; [now left|]. right.
      simpl in Hm. apply andb_true_iff in Hm as [Hx Hm].
      apply negb_true_iff in Hx. simpl. rewrite Hx. simpl. rewrite app_nil_r.
      assert (Hlt : (length (m ++ r) <? S (length (m ++ r)))%nat = true)
        by (apply Nat.ltb_lt; lia).
      rewrite Hlt. apply IH; [simpl in Hlen; lia|]. eauto.
Qed.

Lemma in_run_star_any s r :
  In r (run (Regex.Star Regex.AnyChar) s) <->
  exists m, s = m ++ r
            /\ forallb (fun c => negb (Chars.is_line_terminator c)) m = true.
Proof. simpl. now apply in_iterate_any. Qed.

End Matcher.

Lemma nonempty_In {A} (l : list A) : Regex.nonempty l = true <-> exists x, In x l.
Proof.
  destruct l; simpl.
  - split; [discriminate | intros (x & [])].
  - split; [eauto | reflexivity].
Qed.

Lemma in_tails t s : In t (Regex.tails s) <-> exists l, s = l ++ t.
Proof.
  induction s as [|c s IH].
  - simpl. split.
    + intros [<-|[]]. now exists [].
    + intros (l & H). left. symmetry in H. apply app_eq_nil in H. symmetry. tauto.
  - cbn [Regex.tails]. split.
    + intros [<-|H]; [now exists []|].
      apply IH in H as (l & ->). now exists (c :: l).
    + intros (l & H). destruct l as [|c' l]; simpl in H.
      * now left.
      * right. apply IH. inversion H; subst. eauto.
Qed.

(** [test] succeeds when the pattern matches at some start index. *)
Lemma test_chars_iff re s :
  Regex.test_chars re s = true <->
  exists l t r,
    s = l ++ t
    /\ In r (Regex.run (Regex.ignoreCase re) (length s) (Regex.tree re) t).
Proof.
  unfold Regex.test_chars. rewrite existsb_exists. split.
  - intros (t & Ht & Hr). apply in_tails in Ht as (l & ->).
    apply nonempty_In in Hr as (r & Hr). eauto.
  - intros (l & t & r & -> & Hr). exists t. split.
    + apply in_tails. eauto.
    + apply nonempty_In. eauto.
Qed.

(** ** The namespace suffix of a type *)

Lemma one_line_chars s :
  one_line s =
  forallb (fun c => negb (Chars.is_line_terminator c)) (list_ascii_of_string s).
Proof. induction s as [|c s IH]; simpl; [reflexivity | now rewrite IH]. Qed.

Lemma RE_HAS_NAMESPACE_tree :
  RE_HAS_NAMESPACE =
  {| Regex.tree :=
       Regex.mk_alt
         [Regex.mk_seq
            [Regex.Char ".";
             Regex.Seq Regex.AnyChar (Regex.Star Regex.AnyChar);
             Regex.InputEnd]];
     Regex.ignoreCase := false |}.
Proof. reflexivity. Qed.

(** [\..+$] at one start index. *)
Lemma has_namespace_at total c rest :
  Regex.nonempty
    (Regex.run false total (Regex.tree RE_HAS_NAMESPACE)
               (c :: list_ascii_of_string rest)) =
  Ascii.eqb c "." && negb (String.eqb rest "") && one_line rest.
Proof.
  apply Bool.eq_iff_eq_true. rewrite nonempty_In.
  rewrite RE_HAS_NAMESPACE_tree. cbn [Regex.tree].
  rewrite !andb_true_iff, negb_true_iff, one_line_chars.
  split.
  - intros (r & H). apply in_run_mk_alt in H as (a & [<-|[]] & H).
    change (Regex.mk_seq [Regex.Char "."; Regex.Seq Regex.AnyChar (Regex.Star Regex.AnyChar); Regex.InputEnd])
      with (Regex.Seq (Regex.Char ".")
              (Regex.Seq (Regex.Seq Regex.AnyChar (Regex.Star Regex.AnyChar))
                 (Regex.Seq Regex.InputEnd Regex.Empty))) in H.
    apply in_run_seq in H as (m1 & H1 & H).
    apply in_run_seq in H as (m2 & H2 & H).
    apply in_run_seq in H as (m3 & H3 & H).
    apply in_run_end in H3 as [-> ->].
    apply in_run_seq in H2 as (m4 & H4 & H2).
    apply in_run_star_any in H2 as (m & -> & Hm).
    cbn [Regex.run] in H1. unfold Chars.char_matches in H1.
    destruct (Ascii.eqb_spec "." c) as [<-|Hne]; [|destruct H1].
    destruct H1 as [<-|[]].
    destruct rest as [|x rest]; [destruct H4|].
    cbn [Regex.run list_ascii_of_string] in H4.
    destruct (Chars.is_line_terminator x) eqn:Ex; [destruct H4|].
    destruct H4 as [H4|[]]. rewrite app_nil_r in H4.
    repeat split. cbn [list_ascii_of_string forallb]. rewrite Ex, H4. exact Hm.
  - intros [[Hc Hne] Hline]. apply Ascii.eqb_eq in Hc as ->.
    destruct rest as [|x rest]; [discriminate|].
    cbn [list_ascii_of_string forallb] in Hline.
    apply andb_true_iff in Hline as [Hx Hline]. apply negb_true_iff in Hx.
    exists []. apply in_run_mk_alt. eexists. split; [now left|].
    change (Regex.mk_seq [Regex.Char "."; Regex.Seq Regex.AnyChar (Regex.Star Regex.AnyChar); Regex.InputEnd])
      with (Regex.Seq (Regex.Char ".")
              (Regex.Seq (Regex.Seq Regex.AnyChar (Regex.Star Regex.AnyChar))
                 (Regex.Seq Regex.InputEnd Regex.Empty))).
    apply in_run_seq. exists (list_ascii_of_string (String x rest)).
    split; [now left|].
    apply in_run_seq. exists []. split.
    + apply in_run_seq. exists (list_ascii_of_string rest). split.
      * cbn [Regex.run list_ascii_of_string]. rewrite Hx. now left.
      * apply in_run_star_any. exists (list_ascii_of_string rest).
        split; [now rewrite app_nil_r | exact Hline].
    + apply in_run_seq. exists []. split; [now apply in_run_end | now left].
Qed.

(** The RegExp [RE_HAS_NAMESPACE] decides the namespace suffix. *)
Lemma RE_HAS_NAMESPACE_test type :
  Regex.test RE_HAS_NAMESPACE type = has_namespace_suffix type.
Proof.
  unfold Regex.test, Regex.test_chars.
  change (Regex.ignoreCase RE_HAS_NAMESPACE) with false.
  generalize (length (list_ascii_of_string type)) as total.
  induction type as [|c rest IH]; intros total.
  - reflexivity.
  - cbn [list_ascii_of_string Regex.tails existsb has_namespace_suffix].
    now rewrite has_namespace_at, IH.
Qed.

(** What a call of [postMessage] does, for any [options]. *)
Lemma postMessage_result target type data options st :
  postMessage target type data options st =
  match assign_defaults (match options with VUndefined => VObj [] | o => o end) with
  | Ok (defaultedOptions, targetOrigin) =>
      (st,
       [Sent target
             (JSON.stringify
                (VObj [("type",
                        VStr (if has_namespace_suffix type then type
                              else type +:+ DEFAULT_MESSAGE_NAMESPACE));
                       ("data", data);
                       ("defaultedOptions", defaultedOptions)]))
             targetOrigin],
       Ok tt)
  | Throws e => (st, [], Throws e)
  | Unmodelled => (st, [], Unmodelled)
  end.
Proof.
  unfold postMessage, bind, lift, emit.
  rewrite RE_HAS_NAMESPACE_test.
  destruct (assign_defaults _) as [[d o]| |]; try reflexivity.
  now destruct (has_namespace_suffix type).
Qed.

Example C8_init :
  trace (postMessage child_window "init" payload VUndefined initial) =
  [Sent child_window
        (JSON.stringify
           (VObj [("type", VStr "init.postMessage"); ("data", payload);
                  ("defaultedOptions", VObj [("targetOrigin", VStr "*")])]))
        (VStr "*")]
  /\ has_namespace_suffix "init" = false
  /\ has_namespace_suffix "init.dfp" = true.
Proof. repeat split. Qed.

(** The suffix in words: the type splits around a [.] into an event name and
    a non-empty one-line namespace. *)
Lemma has_namespace_suffix_spec type :
  has_namespace_suffix type = true <->
  exists event namespace,
    type = event +:+ "." +:+ namespace
    /\ namespace <> "" /\ one_line namespace = true.
Proof.
  induction type as [|c rest IH]; cbn [has_namespace_suffix].
  - split; [discriminate|]. intros (ev & ns & H & _). destruct ev; discriminate.
  - rewrite orb_true_iff, !andb_true_iff, negb_true_iff, IH. split.
    + intros [[[Hc Hne] Hl]|(ev & ns & -> & Hne & Hl)].
      * apply Ascii.eqb_eq in Hc as ->. exists "", rest. repeat split; auto.
        intros ->. discriminate.
      * exists (String c ev), ns. repeat split; auto.
    + intros (ev & ns & H & Hne & Hl). destruct ev as [|c' ev].
      * left. cbn in H. inversion H; subst. repeat split; auto.
        destruct ns; [congruence | reflexivity].
      * right. cbn in H. inversion H; subst. eauto.
Qed.





(** ** The parser on spliced text *)

Lemma chars_app s t :
  list_ascii_of_string (s +:+ t) = list_ascii_of_string s ++ list_ascii_of_string t.
Proof. induction s as [|c s IH]; simpl; [reflexivity | now rewrite IH]. Qed.

Lemma chars_join_cons sep item item' rest :
  list_ascii_of_string (JSON.join sep (item :: item' :: rest)) =
  list_ascii_of_string item ++ list_ascii_of_string sep
    ++ list_ascii_of_string (JSON.join sep (item' :: rest)).
Proof. cbn [JSON.join]. now rewrite !chars_app. Qed.

Lemma parse_feed p rest stack alts terms q :
  forallb plain_or_bar p = true ->
  Regex.parse (p ++ rest) stack alts terms q =
  let '(alts', terms', q') := feed p alts terms q in
  Regex.parse rest stack alts' terms' q'.
Proof.
  revert alts terms q. induction p as [|c p IH]; intros alts terms q Hp.
  - reflexivity.
  - cbn [forallb] in Hp. apply andb_true_iff in Hp as [Hc Hp].
    cbn [app Regex.parse feed]. unfold plain_or_bar, atom in *.
    destruct (Regex.classify c); try discriminate; now apply IH.
Qed.

Lemma feed_app p1 p2 alts terms q :
  feed (p1 ++ p2) alts terms q =
  let '(alts', terms', q') := feed p1 alts terms q in feed p2 alts' terms' q'.
Proof.
  revert alts terms q. induction p1 as [|c p1 IH]; intros; [reflexivity|].
  cbn [app feed]. destruct (Regex.classify c); apply IH.
Qed.

Lemma feed_plain s alts terms q :
  plain s = true ->
  exists q', feed (list_ascii_of_string s) alts terms q =
             (alts, rev (atoms s) ++ terms, q').
Proof.
  unfold plain, atoms. revert terms q.
  induction (list_ascii_of_string s) as [|c p IH]; intros terms q Hp.
  - now exists q.
  - cbn [forallb] in Hp. apply andb_true_iff in Hp as [Hc Hp].
    cbn [feed map rev]. rewrite <- app_assoc. cbn [app].
    unfold plain_char in Hc.
    destruct (Regex.classify c) eqn:E; try discriminate; now apply IH.
Qed.

Lemma plain_plain_or_bar s :
  plain s = true -> forallb plain_or_bar (list_ascii_of_string s) = true.
Proof.
  unfold plain. intros H. rewrite forallb_forall in *. intros c Hc.
  apply H in Hc. unfold plain_char, plain_or_bar in *.
  now destruct (Regex.classify c).
Qed.

Lemma join_plain_or_bar items :
  forallb plain items = true ->
  forallb plain_or_bar (list_ascii_of_string (JSON.join "|" items)) = true.
Proof.
  induction items as [|item [|item' rest] IH]; intros H.
  - reflexivity.
  - cbn in H. rewrite andb_true_r in H. now apply plain_plain_or_bar.
  - cbn [forallb] in H. apply andb_true_iff in H as [H1 H2].
    rewrite chars_join_cons, !forallb_app, (plain_plain_or_bar _ H1), (IH H2).
    reflexivity.
Qed.

(** Reading the joined items leaves the alternatives of [alternatives]. *)
Lemma feed_join items alts terms q back :
  forallb plain items = true ->
  exists alts' terms' q',
    feed (list_ascii_of_string (JSON.join "|" items)) alts terms q =
    (alts', terms', q')
    /\ rev (Regex.mk_seq (rev (back ++ terms')) :: alts') =
       rev alts ++ alternatives (rev terms) (rev back) items.
Proof.
  revert alts terms q. induction items as [|item [|item' rest] IH];
    intros alts terms q H.
  - exists alts, terms, q. split; [reflexivity|].
    cbn. now rewrite rev_app_distr.
  - cbn in H. rewrite andb_true_r in H.
    destruct (feed_plain item alts terms q H) as (q' & Hf).
    exists alts, (rev (atoms item) ++ terms), q'. split; [exact Hf|].
    cbn. now rewrite !rev_app_distr, rev_involutive, <- app_assoc.
  - cbn [forallb] in H. apply andb_true_iff in H as [H1 H2].
    rewrite chars_join_cons, feed_app.
    destruct (feed_plain item alts terms q H1) as (q1 & ->).
    cbn [list_ascii_of_string app feed]. change (Regex.classify "|") with Regex.TBar.
    cbv iota.
    destruct (IH (Regex.mk_seq (rev (rev (atoms item) ++ terms)) :: alts)
                 [] Regex.NoAtom H2) as (alts' & terms' & q' & Hf & Hrev).
    exists alts', terms', q'. split; [exact Hf|].
    rewrite Hrev. cbn [rev alternatives].
    rewrite rev_app_distr, rev_involutive, <- app_assoc. reflexivity.
Qed.

Lemma compileNamespaceRegExp_plain namespaces :
  forallb plain namespaces = true ->
  compileNamespaceRegExp namespaces = Ok (namespace_matcher namespaces).
Proof.
  intros H. unfold compileNamespaceRegExp, RegExp_new, Regex.parse_pattern.
  rewrite !chars_app.
  change (list_ascii_of_string "\.(?:") with ["\"; "."; "("; "?"; ":"]%char.
  cbn [app Regex.parse].
  change (Regex.classify "\") with Regex.TBackslash.
  change (Regex.escapable ".") with true.
  change (Regex.classify "(") with Regex.TOpen.
  change (Ascii.eqb "?" "?") with true.
  change (Ascii.eqb ":" ":") with true.
  cbv iota.
  rewrite (parse_feed _ _ _ _ _ _ (join_plain_or_bar _ H)).
  destruct (feed_join namespaces [] [] Regex.NoAtom [] H)
    as (alts' & terms' & q' & -> & Hrev).
  change (list_ascii_of_string ")$") with [")"; "$"]%char.
  cbn [Regex.parse].
  change (Regex.classify ")") with Regex.TClose.
  change (Regex.classify "$") with Regex.TDollar.
  cbv iota. unfold Regex.close at 1. unfold Regex.close.
  cbn [app rev] in Hrev |- *. rewrite Hrev. reflexivity.
Qed.

Lemma compileOriginRegExp_plain origins :
  forallb plain origins = true ->
  compileOriginRegExp origins = Ok (origin_matcher origins).
Proof.
  intros H. unfold compileOriginRegExp, RegExp_new, Regex.parse_pattern.
  rewrite !chars_app.
  set (joined := list_ascii_of_string (JSON.join "|" origins)).
  set (tail := joined ++ list_ascii_of_string "$").
  assert (Hfront : forall tail,
             Regex.parse (list_ascii_of_string "^http(s)?:\/\/" ++ tail)
                         [] [] [] Regex.NoAtom =
             Regex.parse tail [] [] (rev origin_front) Regex.HasAtom)
    by reflexivity.
  rewrite Hfront. subst tail joined.
  rewrite (parse_feed _ _ _ _ _ _ (join_plain_or_bar _ H)).
  destruct (feed_join origins [] (rev origin_front) Regex.HasAtom
                      [Regex.InputEnd] H)
    as (alts' & terms' & q' & -> & Hrev).
  change (list_ascii_of_string "$") with ["$"]%char.
  cbn [Regex.parse].
  change (Regex.classify "$") with Regex.TDollar.
  cbv iota. unfold Regex.close.
  rewrite rev_involutive in Hrev.
  cbn [app rev] in Hrev |- *. rewrite Hrev. reflexivity.
Qed.

(** ** What the compiled matchers accept *)

Lemma run_atom ic total c x t :
  Regex.run ic total (atom c) (x :: t) = if atom_matches ic c x then [t] else [].
Proof.
  unfold atom, atom_matches.
  destruct (Regex.classify c); cbn [Regex.run]; try reflexivity.
  now destruct (Chars.is_line_terminator x).
Qed.

Lemma run_atom_nil ic total c : Regex.run ic total (atom c) [] = [].
Proof. unfold atom. now destruct (Regex.classify c). Qed.

Lemma in_run_atoms ic total p back s r :
  In r (Regex.run ic total (Regex.mk_seq (map atom p ++ back)) s) <->
  exists m s', s = m ++ s' /\ pattern_matches ic p m = true
               /\ In r (Regex.run ic total (Regex.mk_seq back) s').
Proof.
  revert s. induction p as [|c p IH]; intros s.
  - cbn [map app]. split.
    + intros H. now exists [], s.
    + intros (m & s' & -> & Hm & H). destruct m; [exact H | discriminate].
  - cbn [map app].
    change (Regex.mk_seq (atom c :: map atom p ++ back))
      with (Regex.Seq (atom c) (Regex.mk_seq (map atom p ++ back))).
    rewrite in_run_seq. split.
    + intros (m1 & H1 & H). destruct s as [|x t].
      * rewrite run_atom_nil in H1. destruct H1.
      * rewrite run_atom in H1. destruct (atom_matches ic c x) eqn:E;
          [|destruct H1]. destruct H1 as [<-|[]].
        apply IH in H as (m & s' & -> & Hm & H).
        exists (x :: m), s'. cbn [app pattern_matches]. rewrite E, Hm. auto.
    + intros (m & s' & -> & Hm & H). destruct m as [|x m]; [discriminate|].
      cbn [pattern_matches] in Hm. apply andb_true_iff in Hm as [E Hm].
      exists (m ++ s'). split.
      * cbn [app]. rewrite run_atom, E. now left.
      * apply IH. eauto.
Qed.

Lemma in_run_atoms_only ic total p s r :
  In r (Regex.run ic total (Regex.mk_seq (map atom p)) s) <->
  exists m, s = m ++ r /\ pattern_matches ic p m = true.
Proof.
  pose proof (in_run_atoms ic total p [] s r) as H.
  rewrite List.app_nil_r in H. rewrite H. split.
  - intros (m & s' & -> & Hm & [<-|[]]). eauto.
  - intros (m & -> & Hm). exists m, r. repeat split; auto. now left.
Qed.

Lemma pattern_matches_length ic p m :
  pattern_matches ic p m = true -> length m = length p.
Proof.
  revert m. induction p as [|c p IH]; intros [|x m] H; try discriminate.
  - reflexivity.
  - cbn [pattern_matches] in H. apply andb_true_iff in H as [_ H].
    cbn [length]. f_equal. now apply IH.
Qed.

(** A plain pattern matches its own text. *)
Lemma pattern_matches_self ic s :
  plain s = true -> one_line s = true ->
  pattern_matches ic (list_ascii_of_string s) (list_ascii_of_string s) = true.
Proof.
  unfold plain. rewrite one_line_chars.
  induction (list_ascii_of_string s) as [|c p IH]; intros Hp Hl; [reflexivity|].
  cbn [forallb pattern_matches] in *.
  apply andb_true_iff in Hp as [Hc Hp]. apply andb_true_iff in Hl as [Hx Hl].
  rewrite (IH Hp Hl), andb_true_r.
  unfold atom_matches, Chars.char_matches.
  destruct (Regex.classify c); try exact Hx; destruct ic; apply Ascii.eqb_refl.
Qed.

Lemma alternatives_bare items :
  items <> [] ->
  alternatives [] [] items = map (fun item => Regex.mk_seq (atoms item)) items.
Proof.
  induction items as [|item [|item' rest] IH]; intros Hne.
  - congruence.
  - cbn. now rewrite app_nil_r.
  - cbn [alternatives map app]. f_equal. apply IH. discriminate.
Qed.

(** The namespace matcher accepts a type exactly when, somewhere, a literal
    [.] is followed up to the end of the type by text that one of the
    namespaces matches as a pattern. *)
Lemma namespace_matcher_test namespaces type :
  namespaces <> [] ->
  Regex.test (namespace_matcher namespaces) type = true <->
  exists event namespace rest,
    In namespace namespaces
    /\ list_ascii_of_string type = event ++ "."%char :: rest
    /\ pattern_matches false (list_ascii_of_string namespace) rest = true.
Proof.
  intros Hne. unfold Regex.test. rewrite test_chars_iff.
  unfold namespace_matcher. cbn [Regex.tree Regex.ignoreCase].
  rewrite (alternatives_bare _ Hne).
  set (total := length (list_ascii_of_string type)).
  split.
  - intros (l & t & r & Hs & H).
    apply in_run_mk_alt in H as (a & [<-|[]] & H).
    change (In r (Regex.run false total
                    (Regex.Seq (Regex.Char ".")
                       (Regex.Seq
                          (Regex.mk_alt (map (fun item => Regex.mk_seq (atoms item)) namespaces))
                          (Regex.Seq Regex.InputEnd Regex.Empty))) t)) in H.
    apply in_run_seq in H as (m1 & H1 & H).
    apply in_run_seq in H as (m2 & H2 & H).
    apply in_run_seq in H as (m3 & H3 & H).
    apply in_run_end in H3 as [-> ->].
    apply in_run_mk_alt in H2 as (a & Ha & H2).
    apply in_map_iff in Ha as (n & <- & Hn).
    unfold atoms in H2.
    apply in_run_atoms_only in H2 as (m & -> & Hm).
    destruct t as [|x t]; [destruct H1|]. cbn [Regex.run] in H1.
    unfold Chars.char_matches in H1.
    destruct (Ascii.eqb_spec "." x) as [<-|]; [|destruct H1].
    destruct H1 as [H1|[]]. rewrite List.app_nil_r in H1. subst t.
    exists l, n, m. auto.
  - intros (ev & n & m & Hn & Hs & Hm).
    exists ev, ("."%char :: m), []. split; [exact Hs|].
    apply in_run_mk_alt. eexists. split; [now left|].
    change (In [] (Regex.run false total
                     (Regex.Seq (Regex.Char ".")
                        (Regex.Seq
                           (Regex.mk_alt (map (fun item => Regex.mk_seq (atoms item)) namespaces))
                           (Regex.Seq Regex.InputEnd Regex.Empty))) ("."%char :: m))).
    apply in_run_seq. exists m. split; [now left|].
    apply in_run_seq. exists []. split.
    + apply in_run_mk_alt. exists (Regex.mk_seq (atoms n)). split.
      * apply in_map_iff. eauto.
      * unfold atoms. apply in_run_atoms_only. exists m.
        rewrite List.app_nil_r. auto.
    + apply in_run_seq. exists []. split; [now apply in_run_end | now left].
Qed.

(** ** The dispatcher *)

Section Dispatcher.

Variable env : Env.

Lemma handle_origin_rejected k e st :
  origin_rejected env st e = true ->
  handleReceiveMessage_with env k e st = (st, [], Ok tt).
Proof.
  intros H. unfold handleReceiveMessage_with, bind, get. now rewrite H.
Qed.

Lemma handle_namespace_unmatched k e st message type :
  JSON.parse (undefined_or (ev_data e)) = Ok message ->
  get_prop message "type" = Ok type ->
  Regex.test (messageNamespacesRegex st) (to_string type) = false ->
  handleReceiveMessage_with env k e st = (st, [], Ok tt).
Proof.
  intros Hp Ht Hn. unfold handleReceiveMessage_with, bind, get, lift.
  destruct (origin_rejected env st e); [reflexivity|].
  rewrite Hp, Ht, Hn. reflexivity.
Qed.

(** With the handler as only listener, a message it drops leaves no trace. *)
Lemma deliver_dropped origin data source st :
  listeners st = [("message", HandleReceiveMessage)] ->
  handleReceiveMessage env (MessageEvent origin data source) st = (st, [], Ok tt) ->
  deliver env origin data source st = (st, [], Ok tt).
Proof.
  intros Hl Hh. unfold deliver, call_listeners.
  unfold bind at 1. unfold get at 1. cbv iota beta. rewrite Hl.
  match goal with
  | |- context [filter ?f ?l] =>
      change (filter f l) with [("message", HandleReceiveMessage)]
  end.
  cbn [for_each fst snd]. unfold bind, get. rewrite Hl.
  match goal with
  | |- context [existsb ?f ?l] => change (existsb f l) with true
  end.
  cbv iota. unfold reporting. rewrite Hh. reflexivity.
Qed.

(** Without listener for [message], the transport reaches nothing. *)
Lemma deliver_detached origin data source st :
  listeners st = [] -> deliver env origin data source st = (st, [], Ok tt).
Proof.
  intros Hl. unfold deliver, call_listeners, bind, get. now rewrite Hl.
Qed.

End Dispatcher.

Lemma default_namespace_rejects_dfp event :
  Regex.test (namespace_matcher [DEFAULT_MESSAGE_NAMESPACE]) (event +:+ ".dfp") = false.
Proof.
  destruct (Regex.test _ _) eqn:E; [exfalso | reflexivity].
  apply namespace_matcher_test in E as (l & n & m & [<-|[]] & Hs & Hm);
    [|discriminate].
  cbn [list_ascii_of_string DEFAULT_MESSAGE_NAMESPACE] in Hm.
  repeat (destruct m as [|? m]; [discriminate|];
          cbn [pattern_matches] in Hm;
          apply andb_true_iff in Hm as [? Hm]).
  destruct m; [|discriminate].
  repeat match goal with
         | H : atom_matches false "e" ?x = true |- _ =>
             change (Ascii.eqb "e" x = true) in H;
             apply Ascii.eqb_eq in H; subst x
         end.
  rewrite chars_app in Hs. apply (f_equal (@rev ascii)) in Hs.
  rewrite !rev_app_distr in Hs. cbn [list_ascii_of_string rev app] in Hs.
  discriminate.
Qed.

Lemma after_listen_stop_state :
  messageNamespaces after_listen_stop = [DEFAULT_MESSAGE_NAMESPACE]
  /\ messageNamespacesRegex after_listen_stop = namespace_matcher [DEFAULT_MESSAGE_NAMESPACE]
  /\ listening after_listen_stop = true
  /\ listeners after_listen_stop = [("message", HandleReceiveMessage)].
Proof. repeat split. Qed.

(** C6, as the code has it.  After [listen("dfp")] and [stopListening("dfp")]
    the namespace set holds the default namespace alone, as it did
    initially, the handler is still attached and the flag is still set; a
    message whose type ends in [.dfp] is now dropped without effect.  Only
    when the default namespace is stopped as well is the set empty, the
    handler detached and the flag cleared, and then no inbound message has
    any effect. *)
Theorem C6_listen_then_stop_keeps_default_namespace :
  (messageNamespaces after_listen_stop = messageNamespaces initial
   /\ listening after_listen_stop = true
   /\ listeners after_listen_stop = [("message", HandleReceiveMessage)])
  /\ (forall env origin body source message event,
         JSON.parse body = Ok message ->
         get_prop message "type" = Ok (VStr (event +:+ ".dfp")) ->
         deliver env origin body source after_listen_stop =
         (after_listen_stop, [], Ok tt))
  /\ (messageNamespaces after_stop_default = []
      /\ listening after_stop_default = false
      /\ listeners after_stop_default = []
      /\ forall env origin body source,
           deliver env origin body source after_stop_default =
           (after_stop_default, [], Ok tt)).
Proof.
  split; [repeat split|]. split.
  - intros env origin body source message event Hp Ht.
    destruct after_listen_stop_state as (_ & Hre & _ & Hl).
    apply deliver_dropped; [exact Hl|].
    apply (handle_namespace_unmatched env _ _ _ message (VStr (event +:+ ".dfp")));
      [exact Hp | exact Ht |].
    rewrite Hre. apply default_namespace_rejects_dfp.
  - do 3 (split; [reflexivity|]). intros. now apply deliver_detached.
Qed.

(** As stated, C6 fails: after the two calls the namespace set is not empty,
    the flag is set, the handler is attached, and the message that
    [postMessage(parent, "init.", payload)] sends is emitted as a local
    event. *)
Lemma C6_counterexample :
  messageNamespaces after_listen_stop = [".postMessage"]
  /\ listening after_listen_stop = true
  /\ listeners after_listen_stop = [("message", HandleReceiveMessage)]
  /\ trace (deliver (parent_env None) child_origin (text_of "init.")
                    (JWindow child_window) after_listen_stop) =
     [Dispatched (CustomEvent "init..postMessage" payload (JWindow child_window))].
Proof. repeat split. Qed.

(** ** The origin check *)

Ltac split_pattern H m :=
  repeat (destruct m as [|? m]; [discriminate|];
          cbn [pattern_matches] in H;
          let Hc := fresh "Hc" in
          apply andb_true_iff in H as [Hc H];
          match type of Hc with
          | atom_matches ?ic ?c ?x = true =>
              change (Chars.char_matches ic c x = true) in Hc
          end).

(** Matching one literal of [origin_front]. *)
Ltac front_char :=
  apply in_run_seq; eexists; split;
  [ cbn [Regex.run];
    match goal with
    | H : Chars.char_matches true ?c ?x = true
      |- context [Chars.char_matches true ?c ?x] => rewrite H
    end; now left
  | ].

Lemma origin_front_accepts total scheme rest :
  is_scheme scheme = true ->
  total = length (scheme ++ rest) ->
  In rest (Regex.run true total (Regex.mk_seq origin_front) (scheme ++ rest)).
Proof.
  intros Hs ->. unfold is_scheme in Hs. apply orb_true_iff in Hs.
  cbn [list_ascii_of_string] in Hs.
  unfold origin_front.
  change (Regex.mk_seq ?l) with (fold_right Regex.Seq Regex.Empty l).
  cbn [fold_right].
  destruct Hs as [Hs|Hs]; split_pattern Hs scheme; (destruct scheme; [|discriminate]);
    cbn [app];
    (apply in_run_seq; eexists; split; [apply in_run_start; split; reflexivity|]);
    do 4 front_char.
  - apply in_run_seq. eexists. split.
    { apply in_run_alt. right. now left. }
    do 3 front_char. now left.
  - apply in_run_seq. eexists. split.
    { apply in_run_alt. left. apply in_run_alt. left.
      apply in_run_seq. eexists. split; [|now left].
      cbn [Regex.run]. rewrite Hc3. now left. }
    do 3 front_char. now left.
Qed.

Lemma alternatives_member front back items item :
  In item items ->
  exists front' back',
    In (Regex.mk_seq (front' ++ atoms item ++ back'))
       (alternatives front back items)
    /\ (front' = front \/ front' = [])
    /\ (back' = back \/ back' = []).
Proof.
  revert front. induction items as [|i [|i' rest] IH]; intros front Hin.
  - destruct Hin.
  - destruct Hin as [->|[]]. exists front, back. cbn. auto.
  - destruct Hin as [->|Hin].
    + exists front, []. cbn [alternatives]. rewrite List.app_nil_r.
      split; [now left | auto].
    + destruct (IH [] Hin) as (f' & b' & Hmem & Hf & Hb).
      exists f', b'. split; [now right|]. split; [right|exact Hb].
      now destruct Hf.
Qed.

Lemma host_accepts total host back m :
  pattern_matches true (list_ascii_of_string host) m = true ->
  back = [Regex.InputEnd] \/ back = [] ->
  In [] (Regex.run true total (Regex.mk_seq (atoms host ++ back)) m).
Proof.
  intros Hm Hb. unfold atoms. apply in_run_atoms. exists m, [].
  rewrite List.app_nil_r. repeat split; [exact Hm|].
  destruct Hb as [->| ->]; now left.
Qed.

Lemma origin_matcher_accepts origins host scheme m :
  In host origins ->
  is_scheme scheme = true ->
  pattern_matches true (list_ascii_of_string host) m = true ->
  Regex.test_chars (origin_matcher origins) (scheme ++ m) = true.
Proof.
  intros Hin Hs Hm. apply test_chars_iff.
  unfold origin_matcher. cbn [Regex.tree Regex.ignoreCase].
  destruct (alternatives_member origin_front [Regex.InputEnd] origins host Hin)
    as (f' & b' & Hmem & Hf & Hb).
  destruct Hf as [-> | ->].
  - exists [], (scheme ++ m), []. split; [reflexivity|].
    apply in_run_mk_alt. eexists. split; [exact Hmem|].
    apply in_run_mk_seq_app. exists m. split.
    + now apply origin_front_accepts.
    + now apply host_accepts.
  - exists scheme, m, []. split; [reflexivity|].
    apply in_run_mk_alt. eexists. split; [exact Hmem|].
    cbn [app]. now apply host_accepts.
Qed.

Lemma origin_accepted_cases env st origin :
  origin_accepted env st origin =
  String.eqb origin (location_origin env)
  || Regex.test (postMessageAllowedOriginRegex st) origin
  || String.eqb origin "null".
Proof.
  unfold origin_accepted, origin_rejected.
  cbn [ev_origin MessageEvent option_string_eqb undefined_or].
  now rewrite !negb_andb, !negb_involutive.
Qed.

Lemma in_run_char_seq ic total c k s r :
  In r (Regex.run ic total (Regex.Seq (Regex.Char c) k) s) ->
  exists x t, s = x :: t /\ Chars.char_matches ic c x = true
              /\ In r (Regex.run ic total k t).
Proof.
  intros H. apply in_run_seq in H as (m & Hm & H).
  destruct s as [|x t]; [destruct Hm|]. cbn [Regex.run] in Hm.
  destruct (Chars.char_matches ic c x) eqn:E; [|destruct Hm].
  destruct Hm as [<-|[]]. eauto.
Qed.

Lemma in_run_optional_char_seq ic total c k s r :
  In r (Regex.run ic total
          (Regex.Seq (Regex.Alt (Regex.mk_alt [Regex.mk_seq [Regex.Char c]])
                                Regex.Empty) k) s) ->
  In r (Regex.run ic total k s)
  \/ exists x t, s = x :: t /\ Chars.char_matches ic c x = true
                 /\ In r (Regex.run ic total k t).
Proof.
  intros H. apply in_run_seq in H as (m & Hm & H).
  apply in_run_alt in Hm as [Hm|Hm].
  - right. apply in_run_mk_alt in Hm as (a & [<-|[]] & Hm).
    change (Regex.mk_seq [Regex.Char c])
      with (Regex.Seq (Regex.Char c) Regex.Empty) in Hm.
    apply in_run_char_seq in Hm as (x & t & -> & E & [<-|[]]). eauto.
  - left. destruct Hm as [<-|[]]. exact H.
Qed.

(** What [origin_front] consumes is a scheme, read from the start. *)
Lemma origin_front_sound total t m :
  In m (Regex.run true total (Regex.mk_seq origin_front) t) ->
  length t = total /\ exists scheme, t = scheme ++ m /\ is_scheme scheme = true.
Proof.
  unfold origin_front.
  change (Regex.mk_seq ?l) with (fold_right Regex.Seq Regex.Empty l).
  cbn [fold_right]. intros H.
  apply in_run_seq in H as (m0 & H0 & H). apply in_run_start in H0 as [Hlen ->].
  split; [exact Hlen|]. clear Hlen.
  apply in_run_char_seq in H as (x1 & t1 & -> & E1 & H).
  apply in_run_char_seq in H as (x2 & t2 & -> & E2 & H).
  apply in_run_char_seq in H as (x3 & t3 & -> & E3 & H).
  apply in_run_char_seq in H as (x4 & t4 & -> & E4 & H).
  apply in_run_optional_char_seq in H as [H|(xs & ts & -> & Es & H)];
    apply in_run_char_seq in H as (x5 & t5 & -> & E5 & H);
    apply in_run_char_seq in H as (x6 & t6 & -> & E6 & H);
    apply in_run_char_seq in H as (x7 & t7 & -> & E7 & H);
    destruct H as [<-|[]].
  - exists [x1; x2; x3; x4; x5; x6; x7]. split; [reflexivity|].
    unfold is_scheme. apply orb_true_iff. left.
    cbn [list_ascii_of_string pattern_matches].
    change (atom_matches true ?c ?y) with (Chars.char_matches true c y).
    now rewrite E1, E2, E3, E4, E5, E6, E7.
  - exists [x1; x2; x3; x4; xs; x5; x6; x7]. split; [reflexivity|].
    unfold is_scheme. apply orb_true_iff. right.
    cbn [list_ascii_of_string pattern_matches].
    change (atom_matches true ?c ?y) with (Chars.char_matches true c y).
    now rewrite E1, E2, E3, E4, Es, E5, E6, E7.
Qed.

(** With a single plain host trusted, the matcher accepts nothing but a
    scheme followed by text the host matches. *)
Lemma origin_matcher_single host s :
  Regex.test_chars (origin_matcher [host]) s = true ->
  exists scheme m,
    s = scheme ++ m /\ is_scheme scheme = true
    /\ pattern_matches true (list_ascii_of_string host) m = true.
Proof.
  intros H. apply test_chars_iff in H as (l & t & r & -> & H).
  unfold origin_matcher in H. cbn [Regex.tree Regex.ignoreCase alternatives] in H.
  apply in_run_mk_alt in H as (a & [<-|[]] & H).
  apply in_run_mk_seq_app in H as (m & Hfront & H).
  apply origin_front_sound in Hfront as (Hlen & scheme & -> & Hs).
  destruct l; [|cbn [length app] in Hlen; rewrite !List.length_app in Hlen; lia].
  cbn [app].
  unfold atoms in H. apply in_run_atoms in H as (m' & s' & -> & Hm & H).
  change (Regex.mk_seq [Regex.InputEnd])
    with (Regex.Seq Regex.InputEnd Regex.Empty) in H.
  apply in_run_seq in H as (e & He & _). apply in_run_end in He as [-> _].
  exists scheme, m'. rewrite List.app_nil_r. auto.
Qed.

Lemma string_of_chars_app a b :
  string_of_list_ascii (a ++ b) = string_of_list_ascii a +:+ string_of_list_ascii b.
Proof. induction a as [|c a IH]; cbn; [reflexivity | now rewrite IH]. Qed.

(** C4, as the code has it.  In a state whose trusted origins are made of
    literal characters and [.], with the matcher compiled from them: the
    origin check accepts, for every trusted host, a scheme [http://] or
    [https://] followed by text that the host matches as a pattern (so the
    host itself behind either scheme); it accepts the origin of the host
    document and the string [null]; and when a single host is trusted it
    accepts nothing else. *)
Theorem C4_trusted_hosts_are_accepted env st :
  forallb plain (allowedOrigins st) = true ->
  origins_current st ->
  origin_check_spec env st.
Proof.
  intros Hplain Hcur. unfold origins_current in Hcur. unfold origin_check_spec.
  rewrite (compileOriginRegExp_plain _ Hplain) in Hcur.
  inversion Hcur as [Hre]. clear Hcur.
  assert (Haccept : forall host scheme text,
             In host (allowedOrigins st) ->
             is_scheme (list_ascii_of_string scheme) = true ->
             pattern_matches true (list_ascii_of_string host)
                             (list_ascii_of_string text) = true ->
             origin_accepted env st (scheme +:+ text) = true).
  { intros host scheme text Hin Hs Hm.
    rewrite origin_accepted_cases, <- Hre. unfold Regex.test.
    rewrite chars_app, (origin_matcher_accepts _ host _ _ Hin Hs Hm).
    now rewrite orb_true_r. }
  split; [exact Haccept|]. split; [|split; [|split; [|]]].
  - intros host Hin Hline.
    assert (Hself := pattern_matches_self true host
                       (proj1 (forallb_forall _ _) Hplain host Hin) Hline).
    split; apply (Haccept host); auto.
  - rewrite origin_accepted_cases, String.eqb_refl. reflexivity.
  - rewrite origin_accepted_cases, String.eqb_refl. now rewrite orb_true_r.
  - intros host origin Hone Hacc.
    rewrite origin_accepted_cases, <- Hre, Hone in Hacc.
    apply orb_true_iff in Hacc as [Hacc|Hacc];
      [apply orb_true_iff in Hacc as [Hacc|Hacc]|].
    + left. now apply String.eqb_eq.
    + right. right. unfold Regex.test in Hacc.
      apply origin_matcher_single in Hacc as (scheme & m & Ho & Hs & Hm).
      exists (string_of_list_ascii scheme), (string_of_list_ascii m).
      rewrite !list_ascii_of_string_of_list_ascii.
      split; [|auto].
      rewrite <- string_of_chars_app, <- Ho.
      symmetry. apply string_of_list_ascii_of_string.
    + right. left. now apply String.eqb_eq.
Qed.

Lemma C4_witness :
  forallb plain (allowedOrigins two_hosts) = true
  /\ origins_current two_hosts
  /\ origin_check_spec (parent_env None) two_hosts.
Proof.
  split; [reflexivity|]. split; [reflexivity|].
  apply (C4_trusted_hosts_are_accepted (parent_env None) two_hosts);
    reflexivity.
Defined.

(** For instance [https://b.example] and, in capitals, [HTTP://A.EXAMPLE]. *)
Example two_hosts_accepted :
  origin_accepted (parent_env None) two_hosts "https://b.example" = true
  /\ origin_accepted (parent_env None) two_hosts "HTTP://A.EXAMPLE" = true.
Proof. split; reflexivity. Qed.


(** As stated, C4 fails on both sides.  The host [example.com] has been
    added and is in the trusted set, and the check rejects the string
    [example.com].  With [a.example] and [b.example] trusted and no
    wildcard, the check accepts [https://evilb.example], which was never
    added: the alternation of the origins is not grouped, so the last
    origin only has to end the string. *)
Lemma C4_counterexample :
  (In "example.com" (allowedOrigins one_host)
   /\ origin_accepted (parent_env None) one_host "example.com" = false)
  /\ (allowedOrigins two_hosts = ["a.example"; "b.example"]
      /\ origin_accepted (parent_env None) two_hosts "https://evilb.example" = true).
Proof.
  split; split; try reflexivity. now left.
Qed.

(** A wildcard added after a concrete origin resets the trusted set but not
    the matcher, which keeps rejecting other origins. *)
Example wildcard_after_host_keeps_matcher :
  let st := final (addPostMessageOrigin "*" one_host) in
  allowedOrigins st = [ALLOW_WILDCARD]
  /\ origin_accepted (parent_env None) st "https://other.example" = false.
Proof. split; reflexivity. Qed.

(** ** The namespace check *)

(** C5.  With the default namespace active, the message that
    [postMessage(parent, "init", payload)] sends, of type
    [init.postMessage], is dropped without any effect, although it ends
    with [.] and the default namespace; a message on [dfp] is dispatched;
    and a message of type [init.xpostMessage], which ends with no active
    namespace, is dispatched as well. *)
Theorem C5_default_namespace_message_dropped :
  forall arguments,
    let env := parent_env arguments in
    let st := final (listen "dfp" initial) in
    messageNamespaces st = [DEFAULT_MESSAGE_NAMESPACE; "dfp"]
    /\ get_prop (VObj [("type", VStr "init.postMessage"); ("data", payload);
                       ("defaultedOptions", VObj [("targetOrigin", VStr "*")])])
                "type" = Ok (VStr "init.postMessage")
    /\ JSON.parse (text_of "init") =
       Ok (VObj [("type", VStr "init.postMessage"); ("data", payload);
                 ("defaultedOptions", VObj [("targetOrigin", VStr "*")])])
    /\ deliver env child_origin (text_of "init") (JWindow child_window) st =
       (st, [], Ok tt)
    /\ trace (deliver env child_origin (text_of "init.dfp")
                      (JWindow child_window) st) =
       [Dispatched init_dfp_event]
    /\ trace (deliver env child_origin (envelope_text "init.xpostMessage")
                      (JWindow child_window) st) =
       [Dispatched (CustomEvent "init.xpostMessage" payload (JWindow child_window))].
Proof.
  intros. repeat split.
Qed.

(** ** Proxies *)

Lemma name_char_literal c :
  name_char c = true ->
  Regex.classify c = Regex.TLiteral /\ Chars.is_line_terminator c = false.
Proof.
  unfold name_char. destruct (Regex.classify c); try discriminate.
  intros H. now apply negb_true_iff in H.
Qed.

Lemma name_char_not_dot c : name_char c = true -> Ascii.eqb c "." = false.
Proof.
  intros H. destruct (Ascii.eqb_spec c ".") as [->|]; [discriminate | reflexivity].
Qed.

Lemma simple_name_facts n :
  simple_name n = true ->
  n <> "" /\ plain n = true /\ one_line n = true
  /\ forallb name_char (list_ascii_of_string n) = true.
Proof.
  unfold simple_name, plain. rewrite one_line_chars, andb_true_iff, negb_true_iff.
  intros [Hne Hall]. split; [|split; [|split; [|exact Hall]]].
  - intros ->. discriminate.
  - rewrite forallb_forall in *. intros c Hc. apply Hall in Hc.
    apply name_char_literal in Hc as [Hc _]. unfold plain_char. now rewrite Hc.
  - rewrite forallb_forall in *. intros c Hc. apply Hall in Hc.
    apply name_char_literal in Hc as [_ Hc]. now rewrite Hc.
Qed.

Lemma split_name s :
  forallb name_char (list_ascii_of_string s) = true -> split "." s = [s].
Proof.
  induction s as [|c s IH]; cbn [list_ascii_of_string forallb split].
  - reflexivity.
  - rewrite andb_true_iff. intros [Hc Hs].
    rewrite (name_char_not_dot c Hc), (IH Hs). reflexivity.
Qed.

(** [type.split('.', 2)[1]] of an event name, a [.] and a namespace. *)
Lemma split_type event namespace :
  forallb name_char (list_ascii_of_string event) = true ->
  forallb name_char (list_ascii_of_string namespace) = true ->
  nth_error (firstn 2 (split "." (event +:+ "." +:+ namespace))) 1 = Some namespace.
Proof.
  intros He Hn.
  assert (H : split "." (event +:+ "." +:+ namespace) = [event; namespace]).
  { induction event as [|c event IH].
    - change ("" +:+ "." +:+ namespace) with (String "." namespace).
      cbn [split]. change (Ascii.eqb "." ".") with true. cbv iota.
      now rewrite (split_name _ Hn).
    - cbn [list_ascii_of_string forallb] in He.
      apply andb_true_iff in He as [Hc He].
      change (String c event +:+ "." +:+ namespace)
        with (String c (event +:+ "." +:+ namespace)).
      cbn [split]. now rewrite (name_char_not_dot c Hc), (IH He). }
  now rewrite H.
Qed.

Lemma type_has_namespace_suffix event namespace :
  simple_name namespace = true ->
  has_namespace_suffix (event +:+ "." +:+ namespace) = true.
Proof.
  intros H. apply simple_name_facts in H as (Hne & _ & Hline & _).
  apply has_namespace_suffix_spec. exists event, namespace. auto.
Qed.

Lemma indexOf_Some_In x l i : indexOf x l = Some i -> In x l.
Proof.
  intros H. destruct (in_dec string_dec x l) as [Hin|Hn]; [exact Hin|].
  apply indexOf_None in Hn. congruence.
Qed.

(** The matcher of plain namespaces accepts an event name, a [.] and one
    of them. *)
Lemma namespace_matcher_accepts namespaces event namespace :
  In namespace namespaces ->
  plain namespace = true -> one_line namespace = true ->
  Regex.test (namespace_matcher namespaces) (event +:+ "." +:+ namespace) = true.
Proof.
  intros Hin Hp Hl. apply namespace_matcher_test.
  - intros ->. destruct Hin.
  - exists (list_ascii_of_string event), namespace, (list_ascii_of_string namespace).
    split; [exact Hin|]. split.
    + now rewrite !chars_app.
    + now apply pattern_matches_self.
Qed.

Lemma addEventListener_attached st :
  handler_attached (final (addEventListener "message" HandleReceiveMessage st)).
Proof.
  unfold addEventListener, modify, final, handler_attached. cbn [fst].
  destruct (existsb _ (listeners st)) eqn:E.
  - apply existsb_exists in E as ([t l] & Hin & Hr).
    unfold registered in Hr. cbn [fst snd] in Hr.
    apply andb_true_iff in Hr as [Ht Hl]. apply String.eqb_eq in Ht as ->.
    destruct l; [exact Hin | discriminate].
  - cbn [listeners set_listeners]. apply in_or_app. right. now left.
Qed.

(** The end of [listen]: the handler is attached unless the flag is set. *)
Lemma attach_when_not_listening st :
  (listening st = true -> handler_attached st) ->
  exists st1,
    (if negb (listening st) then
       do _ <- addEventListener "message" HandleReceiveMessage;
       modify (set_listening true)
     else ret tt) st = (st1, [], Ok tt)
    /\ proxies st1 = proxies st
    /\ messageNamespaces st1 = messageNamespaces st
    /\ messageNamespacesRegex st1 = messageNamespacesRegex st
    /\ listening st1 = true
    /\ handler_attached st1.
Proof.
  intros Hatt. destruct (listening st) eqn:L; cbn [negb].
  - exists st. repeat split; auto.
  - unfold addEventListener. rewrite bind_modify.
    eexists. split; [reflexivity|].
    pose proof (addEventListener_attached st) as Ha.
    unfold addEventListener, modify, final in Ha. cbn [fst] in Ha.
    destruct (existsb _ (listeners st)); repeat split; auto.
Qed.

(** [listen] on a plain namespace in a consistent state completes, with the
    namespace active, the flag set and the handler attached. *)
Lemma listen_plain st namespace :
  consistent st -> plain namespace = true ->
  exists st1,
    listen namespace st = (st1, [], Ok tt)
    /\ proxies st1 = proxies st
    /\ In namespace (messageNamespaces st1)
    /\ listening st1 = true
    /\ handler_attached st1
    /\ consistent st1.
Proof.
  intros (Hplain & Hcur & Hatt) Hn.
  unfold listen. rewrite bind_get.
  destruct (indexOf namespace (messageNamespaces st)) eqn:E.
  - apply indexOf_Some_In in E. rewrite bind_ret, bind_get.
    destruct (attach_when_not_listening st Hatt)
      as (st1 & -> & Hp & Hns & Hre & Hl & Ha).
    exists st1. split; [reflexivity|]. split; [exact Hp|].
    rewrite Hns. do 3 (split; [assumption|]).
    unfold consistent, namespaces_current. rewrite Hns, Hre. auto.
  - assert (Hplain' : forallb plain (messageNamespaces st ++ [namespace]) = true).
    { rewrite forallb_app, Hplain. cbn. now rewrite Hn. }
    rewrite bind_assoc, bind_modify, bind_assoc, bind_get.
    cbn [messageNamespaces set_messageNamespaces].
    rewrite (compileNamespaceRegExp_plain _ Hplain').
    rewrite bind_assoc, bind_lift_Ok, bind_modify, bind_get.
    match goal with
    | |- context [negb (listening ?s)] => set (st0 := s)
    end.
    assert (Hatt0 : listening st0 = true -> handler_attached st0)
      by exact Hatt.
    destruct (attach_when_not_listening st0 Hatt0)
      as (st1 & -> & Hp & Hns & Hre & Hl & Ha).
    exists st1. split; [reflexivity|]. split; [exact Hp|].
    rewrite Hns. split; [apply in_or_app; right; now left|].
    do 2 (split; [assumption|]).
    unfold consistent, namespaces_current. rewrite Hns, Hre.
    split; [exact Hplain'|]. split; [|auto].
    intros _. now apply compileNamespaceRegExp_plain.
Qed.

Lemma get_proxy_own st namespace :
  inherited namespace = false ->
  get_proxy st namespace =
  match proxies st !! namespace with
  | Some ws => OwnEntry ws
  | None => NoEntry
  end.
Proof. intros H. unfold get_proxy. now rewrite H. Qed.

Lemma proxy_plain st namespace targets :
  consistent st -> plain namespace = true -> inherited namespace = false ->
  exists st1,
    proxy namespace targets st =
    (set_proxies (<[namespace := previous_targets st namespace ++ targets_of targets]>
                    (proxies st)) st1,
     [], Ok tt)
    /\ In namespace (messageNamespaces st1)
    /\ listening st1 = true
    /\ handler_attached st1
    /\ consistent st1.
Proof.
  intros Hc Hn Hown. unfold proxy.
  destruct (listen_plain st namespace Hc Hn) as (st1 & Hl & Hp & Hin & Hli & Ha & Hc1).
  exists st1. rewrite (bind_Ok _ _ _ _ _ Hl), bind_get, (get_proxy_own _ _ Hown).
  unfold modify. rewrite Hp. unfold previous_targets, targets_of.
  split; [|auto]. destruct (proxies st !! namespace), targets; reflexivity.
Qed.

Lemma for_each_postMessage ws type data options defaulted targetOrigin st :
  assign_defaults (match options with VUndefined => VObj [] | o => o end) =
    Ok (defaulted, targetOrigin) ->
  has_namespace_suffix type = true ->
  for_each ws (fun target => postMessage target type data options) st =
  (st,
   map (fun w =>
          Sent w
               (JSON.stringify
                  (VObj [("type", VStr type); ("data", data);
                         ("defaultedOptions", defaulted)]))
               targetOrigin) ws,
   Ok tt).
Proof.
  intros Ha Hs. induction ws as [|w ws IH]; [reflexivity|].
  cbn [for_each map]. unfold bind.
  rewrite postMessage_result, Ha, Hs, IH. reflexivity.
Qed.

Lemma dispatchEvent_trace env e st :
  exists rest, trace (dispatchEvent env e st) = Dispatched e :: rest.
Proof.
  unfold dispatchEvent, bind, emit, trace.
  destruct (call_listeners env (handleCustomEvent env) e st) as [[st1 t1] r].
  now exists t1.
Qed.

Lemma assign_defaults_sendable options :
  object_or_omitted options = true ->
  exists defaulted,
    assign_defaults (match options with VUndefined => VObj [] | o => o end) =
    Ok (defaulted, VStr "*").
Proof.
  destruct options as [| | | | |elements|members]; intros H; try discriminate H.
  - rewrite assign_defaults_object. eauto.
  - eexists. reflexivity.
  - rewrite assign_defaults_object. eauto.
Qed.

(** In a consistent state, the messages on an active namespace that has
    destinations are forwarded to them. *)
Lemma forwards_active env st namespace ws :
  consistent st ->
  In namespace (messageNamespaces st) ->
  simple_name namespace = true ->
  proxies st !! namespace = Some ws ->
  forwards env st namespace ws.
Proof.
  intros (Hplain & Hcur & _) Hin Hn Hws.
  intros event origin body source message data options
         He Hrej Hparse Htype Hdata Hopts Hobj.
  destruct (assign_defaults_sendable _ Hobj) as (defaulted & Hdef).
  exists defaulted.
  pose proof (simple_name_facts _ Hn) as (_ & Hp & Hl & Hchars).
  pose proof (simple_name_facts _ He) as (_ & _ & _ & Hechars).
  assert (Hre : messageNamespacesRegex st = namespace_matcher (messageNamespaces st)).
  { assert (Hne : messageNamespaces st <> []) by (intros E; rewrite E in Hin; destruct Hin).
    specialize (Hcur Hne). rewrite (compileNamespaceRegExp_plain _ Hplain) in Hcur.
    now inversion Hcur. }
  unfold handleReceiveMessage, handleReceiveMessage_with.
  rewrite bind_get, Hrej.
  change (undefined_or (ev_data (MessageEvent origin body source))) with body.
  rewrite Hparse, bind_lift_Ok, Htype, bind_lift_Ok.
  cbn [to_string]. rewrite Hre, (namespace_matcher_accepts _ _ _ Hin Hp Hl).
  cbn [negb]. rewrite (split_type _ _ Hechars Hchars).
  rewrite Hdata, bind_lift_Ok, Hopts, bind_lift_Ok.
  cbn [property_key undefined_or]. unfold get_proxy. rewrite Hws.
  unfold bind at 1.
  rewrite (for_each_postMessage _ _ _ _ _ _ _ Hdef
             (type_has_namespace_suffix _ _ Hn)).
  change (ev_source (MessageEvent origin body source)) with source.
  destruct (dispatchEvent_trace env
              (CustomEvent (event +:+ "." +:+ namespace) data source) st)
    as (rest & Hd).
  destruct (dispatchEvent env _ st) as [[st2 t2] r].
  unfold trace in *. cbn [fst snd] in *. subst t2. now exists rest.
Qed.

Lemma consistent_set_proxies v st : consistent st -> consistent (set_proxies v st).
Proof. intros H. exact H. Qed.

Lemma consistent_initial : consistent initial.
Proof.
  split; [reflexivity|]. split; [intros _; reflexivity | discriminate].
Qed.



(** The table after the calls of the witness, and the forwarding of the
    documented message to the four destinations. *)
Example proxy_twice_example :
  let st := final (proxy "dfp" (TargetArray [5; 6])
                     (final (proxy "dfp" (OneTarget 4) with_proxy))) in
  proxies st !! "dfp" = Some [3; 4; 5; 6]
  /\ trace (deliver (parent_env None) child_origin (text_of "init.dfp")
                    (JWindow child_window) st) =
     map (fun w => Sent w (text_of "init.dfp") (VStr "*")) [3; 4; 5; 6]
     ++ [Dispatched init_dfp_event].
Proof. split; vm_compute; reflexivity. Qed.

(** C9.  With the namespace [constructor], a name that the proxy table
    inherits from [Object.prototype], the two [proxy] calls complete and
    activate the namespace, but they append their destinations to the
    [targets] of the inherited member and leave the table without entry for
    the namespace; an accepted message of type [init.constructor] then makes
    the handler throw: nothing is forwarded to any destination and no local
    event is emitted. *)
Theorem C9_inherited_name_gets_no_entry :
  after_two_proxies = (final after_two_proxies,
                       [Extended "constructor" [5; 6]], Ok tt)
  /\ proxy "constructor" (OneTarget 4) initial =
     (final (proxy "constructor" (OneTarget 4) initial),
      [Extended "constructor" [4]], Ok tt)
  /\ proxies (final after_two_proxies) !! "constructor" = None
  /\ messageNamespaces (final after_two_proxies) =
     [DEFAULT_MESSAGE_NAMESPACE; "constructor"]
  /\ listening (final after_two_proxies) = true
  /\ deliver (parent_env None) child_origin (text_of "init.constructor")
             (JWindow child_window) (final after_two_proxies) =
     (final after_two_proxies, [Reported TypeError], Ok tt).
Proof. repeat split; vm_compute; reflexivity. Qed.

(** Consistency is kept by [stopListening], so that every state reached from
    the initial one through [listen], [stopListening] and [proxy] on plain
    namespaces is consistent. *)
Lemma forallb_splice1 {A} (f : A -> bool) i l :
  forallb f l = true -> forallb f (splice1 i l) = true.
Proof.
  rewrite !forallb_forall. intros H x Hx. apply H. eapply in_splice1, Hx.
Qed.

Ltac state_fields :=
  cbn [fst snd final
       allowedOrigins postMessageAllowedOriginRegex messageNamespaces
       messageNamespacesRegex proxies listening listeners closures
       set_allowedOrigins set_postMessageAllowedOriginRegex
       set_messageNamespaces set_messageNamespacesRegex set_proxies
       set_listening set_listeners set_closures] in *.

Lemma stopListening_consistent st namespace :
  consistent st -> consistent (final (stopListening namespace st)).
Proof.
  intros (Hp & Hc & Ha). unfold stopListening. rewrite bind_get.
  destruct (indexOf namespace (messageNamespaces st)) as [index|];
    [|repeat split; assumption].
  rewrite bind_modify, bind_get. state_fields.
  pose proof (forallb_splice1 plain index _ Hp) as Hp'.
  destruct (splice1 index (messageNamespaces st)) as [|n0 rest] eqn:E;
    cbn [length Nat.eqb negb].
  - unfold removeEventListener. rewrite bind_modify.
    unfold modify, consistent, namespaces_current. state_fields.
    repeat split; [congruence | discriminate].
  - rewrite (compileNamespaceRegExp_plain _ Hp'), bind_lift_Ok.
    unfold modify, consistent, namespaces_current, handler_attached.
    state_fields. repeat split; try assumption.
    intros _. now apply compileNamespaceRegExp_plain.
Qed.


(** * Further properties of the module *)

(** ** Cancelling a subscription *)

Lemma filter_twice {A} (P : A -> Prop) `{forall x, Decision (P x)} (l : list A) :
  filter P (filter P l) = filter P l.
Proof.
  induction l as [|x l IH]; [reflexivity|]. rewrite filter_cons.
  destruct (decide (P x)); [|exact IH].
  rewrite filter_cons_True by assumption. now rewrite IH.
Qed.

(** X1.  [off()] removes the registration of its own [scoped] closure and
    nothing else, whatever else is registered, and leaves the module
    variables alone; called again it changes nothing. *)
Theorem off_removes_own_registration_only h st :
  off h (final (off h st)) = (final (off h st), [], Ok tt)
  /\ (forall r, In r (listeners (final (off h st))) <->
                In r (listeners st) /\ ~ registration_of h r)
  /\ messageNamespaces (final (off h st)) = messageNamespaces st
  /\ allowedOrigins (final (off h st)) = allowedOrigins st
  /\ proxies (final (off h st)) = proxies st
  /\ listening (final (off h st)) = listening st.
Proof.
  split; [|split; [|repeat split]].
  - unfold off, modify, final. cbn [fst listeners set_listeners].
    rewrite filter_twice. reflexivity.
  - intros [type l]. unfold off, modify, final, registration_of.
    cbn [fst listeners set_listeners].
    rewrite <- !list_elem_of_In, list_elem_of_filter. cbn [fst snd].
    rewrite Is_true_true, negb_true_iff. split.
    + intros [Hf Hin]. split; [exact Hin|]. intros (-> & sc & -> & Hid).
      rewrite String.eqb_refl, Hid, Nat.eqb_refl in Hf. discriminate.
    + intros [Hin Hn]. split; [|exact Hin].
      destruct (String.eqb_spec type (h_type h)) as [->|]; [|reflexivity].
      destruct l as [|sc]; [reflexivity|]. cbn [andb].
      destruct (Nat.eqb_spec (sc_id sc) (h_scoped h)) as [Hid|]; [|reflexivity].
      exfalso. apply Hn. split; [reflexivity|]. now exists sc.
Qed.

(** ** Subscriptions over many messages *)

Lemma bind_result {A B} (m : M A) (f : A -> M B) st st1 t1 a :
  m st = (st1, t1, Ok a) ->
  bind m f st = (final (f a st1), t1 ++ trace (f a st1), completion (f a st1)).
Proof.
  intros H. unfold bind, final, trace, completion. rewrite H.
  now destruct (f a st1) as [[? ?] ?].
Qed.

(** Arrivals in a state that each of them leaves as it is. *)
Lemma arrivals_steady env type n st t :
  deliver env child_origin (text_of type) (JWindow child_window) st = (st, t, Ok tt) ->
  arrivals env type n st = (st, times n t, Ok tt).
Proof.
  intros H. induction n as [|n IH]; [reflexivity|].
  cbn [arrivals times]. rewrite (bind_result _ _ _ _ _ _ H), IH. reflexivity.
Qed.

(** X2.  A subscription made with [receiveMessage("init.dfp", f, context)]
    stays registered: for each of [n] matching messages the local event is
    emitted and [f] is called, with [this] the given context (or undefined
    for a falsy one) and with no argument.  The user function is one that
    leaves the module alone. *)
Theorem receiveMessage_fires_on_every_message :
  forall arguments f context n,
    trace (repeated_usage (parent_env arguments) f context n initial) =
    times n [Dispatched init_dfp_event;
             Called f (if truthy context then context else JUndefined) []].
Proof.
  intros. unfold repeated_usage.
  assert (Hsetup : exists st0 st1,
             listen "dfp" initial = (st0, [], Ok tt)
             /\ receiveMessage (JString "init.dfp") (JFunction f) context
                               JUndefined st0 =
                (st1, [], Ok {| h_type := "init.dfp"; h_scoped := 0 |})
             /\ deliver (parent_env arguments) child_origin (text_of "init.dfp")
                        (JWindow child_window) st1 =
                (st1,
                 [Dispatched init_dfp_event;
                  Called f (if truthy context then context else JUndefined) []],
                 Ok tt)).
  { eexists _, _. repeat split; vm_compute; reflexivity. }
  destruct Hsetup as (st0 & st1 & Hl & Hs & Hd).
  rewrite (bind_result _ _ _ _ _ _ Hl). unfold trace at 1 2. cbn [fst snd app].
  rewrite (bind_result _ _ _ _ _ _ Hs), (arrivals_steady _ _ _ _ _ Hd).
  reflexivity.
Qed.


(** One message reaching the handler and one subscription to [init.dfp]:
    the local event is emitted, then the subscription is called, an
    exception it throws being reported. *)
Lemma deliver_to_subscription env origin data sender st sc detail t :
  listeners st = [("message", HandleReceiveMessage); ("init.dfp", Scoped sc)] ->
  (forall K, handleReceiveMessage_with env K (MessageEvent origin data sender) st =
             K (CustomEvent "init.dfp" detail sender) st) ->
  reporting (call_scoped env sc (CustomEvent "init.dfp" detail sender)) st =
    (st, t, Ok tt) ->
  deliver env origin data sender st =
  (st, Dispatched (CustomEvent "init.dfp" detail sender) :: t, Ok tt).
Proof.
  intros Hl Hh Hc.
  assert (Hd : dispatchEvent env (CustomEvent "init.dfp" detail sender) st =
               (st, Dispatched (CustomEvent "init.dfp" detail sender) :: t, Ok tt)).
  { unfold dispatchEvent, call_listeners.
    unfold bind at 1. unfold emit at 1. cbv iota beta.
    rewrite bind_get, Hl.
    match goal with
    | |- context [filter ?P ?l] =>
        change (filter P l) with [("init.dfp", Scoped sc)]
    end.
    cbn [for_each fst snd]. rewrite bind_assoc, bind_get, Hl.
    match goal with
    | |- context [existsb ?f ?l] =>
        replace (existsb f l) with true
          by (cbn [existsb]; unfold registered; cbn [fst snd listener_eqb];
              change (String.eqb "message" "init.dfp") with false;
              change (String.eqb "init.dfp" "init.dfp") with true;
              cbn [andb orb]; now rewrite Nat.eqb_refl)
    end.
    cbv iota. unfold bind, ret. rewrite Hc. cbn [app].
    now rewrite List.app_nil_r. }
  unfold deliver, call_listeners. rewrite bind_get, Hl.
  match goal with
  | |- context [filter ?P ?l] =>
      change (filter P l) with [("message", HandleReceiveMessage)]
  end.
  cbn [for_each fst snd]. rewrite bind_assoc, bind_get, Hl.
  match goal with
  | |- context [existsb ?f ?l] => change (existsb f l) with true
  end.
  cbv iota. unfold handleReceiveMessage. unfold bind, reporting, ret.
  rewrite Hh, Hd. cbn [app]. now rewrite List.app_nil_r.
Qed.

(** X4.  A subscription given a source hears that source only.  For an
    iframe element the sender has to be its content window.  For a window
    the sender has to be the window itself; with another sender the
    closure reads [contentWindow] on the given window, which throws
    SecurityError when that window belongs to another origin (the host
    reports it) and otherwise finds nothing.  Without source ([null]) every
    sender is heard.  The local event is emitted in every case.  The user
    function is one that leaves the module alone. *)
Theorem receiveMessage_source_filter :
  forall arguments f k w sender,
    let env := parent_env arguments in
    let emitted := Dispatched (CustomEvent "init.dfp" payload (JWindow sender)) in
    trace (sourced_usage env (JFrame k w) f (JWindow sender) initial) =
      emitted :: (if Nat.eqb w sender then [Called f JUndefined []] else [])
    /\ trace (sourced_usage env (JWindow w) f (JWindow sender) initial) =
      emitted :: (if Nat.eqb w sender then [Called f JUndefined []]
                  else if cross_origin env w then [Reported SecurityError]
                  else [])
    /\ trace (sourced_usage env JNull f (JWindow sender) initial) =
      [emitted; Called f JUndefined []].
Proof.
  intros. subst env emitted.
  assert (Hany : forall source t,
             (forall st,
                 reporting
                   (call_scoped (parent_env arguments)
                      {| sc_id := 0; sc_source := source;
                         sc_callback := JFunction f; sc_context := JUndefined |}
                      (CustomEvent "init.dfp" payload (JWindow sender))) st =
                 (st, t, Ok tt)) ->
             (match source with JString _ => false | _ => true end) = true ->
             trace (sourced_usage (parent_env arguments) source f
                                  (JWindow sender) initial) =
             Dispatched (CustomEvent "init.dfp" payload (JWindow sender)) :: t).
  { intros source t Hc Hsrc. unfold sourced_usage.
    assert (Hsetup : exists st0 st1,
               listen "dfp" initial = (st0, [], Ok tt)
               /\ receiveMessage source (JString "init.dfp") (JFunction f)
                                 JUndefined st0 =
                  (st1, [], Ok {| h_type := "init.dfp"; h_scoped := 0 |})
               /\ listeners st1 =
                  [("message", HandleReceiveMessage);
                   ("init.dfp",
                    Scoped {| sc_id := 0; sc_source := source;
                              sc_callback := JFunction f;
                              sc_context := JUndefined |})]
               /\ (forall K,
                      handleReceiveMessage_with (parent_env arguments) K
                        (MessageEvent child_origin (text_of "init.dfp")
                                      (JWindow sender)) st1 =
                      K (CustomEvent "init.dfp" payload (JWindow sender)) st1)).
    { destruct source; try discriminate;
        (eexists _, _; split; [vm_compute; reflexivity|];
         split; [vm_compute; reflexivity|];
         split; [vm_compute; reflexivity|];
         intros K; vm_compute; now destruct (K _ _) as [[? ?] ?]). }
    destruct Hsetup as (st0 & st1 & Hl & Hs & Hli & Hh).
    rewrite (bind_result _ _ _ _ _ _ Hl). unfold trace at 1 2. cbn [fst snd app].
    rewrite (bind_result _ _ _ _ _ _ Hs). cbn [fst snd app].
    now rewrite (deliver_to_subscription _ _ _ _ _ _ _ _ Hli Hh (Hc st1)). }
  split; [|split].
  - apply Hany; [|reflexivity]. intros st.
    unfold reporting, call_scoped, bind, lift, ret.
    cbn [sc_source sc_callback sc_context truthy jsval_eqb contentWindow
         ev_source CustomEvent andb negb].
    destruct (Nat.eqb w sender); reflexivity.
  - apply Hany; [|reflexivity]. intros st.
    unfold reporting, call_scoped, bind, lift, ret.
    cbn [sc_source sc_callback sc_context truthy jsval_eqb contentWindow
         ev_source CustomEvent andb negb].
    destruct (Nat.eqb w sender); [reflexivity|].
    cbn [negb andb]. destruct (cross_origin (parent_env arguments) w); reflexivity.
  - apply Hany; reflexivity.
Qed.

(** ** Adding and removing origins *)

Lemma indexOf_app_last x l :
  ~ In x l -> indexOf x (l ++ [x]) = Some (length l).
Proof.
  induction l as [|y l IH]; intros Hn; cbn [app indexOf length].
  - now rewrite String.eqb_refl.
  - destruct (String.eqb_spec y x) as [->|_]; [exfalso; apply Hn; now left|].
    rewrite IH; [reflexivity|]. intros H. apply Hn. now right.
Qed.

Lemma splice1_app_last {A} (l : list A) x : splice1 (length l) (l ++ [x]) = l.
Proof. induction l as [|y l IH]; cbn; [reflexivity | now rewrite IH]. Qed.

Lemma removePostMessageOrigin_absent origin st :
  ~ In origin (allowedOrigins st) ->
  removePostMessageOrigin origin st = (st, [], Ok tt).
Proof.
  intros H. apply indexOf_None in H.
  unfold removePostMessageOrigin. now rewrite bind_get, H.
Qed.

(** X5.  Adding a concrete origin to a trusted list that has neither it nor
    the wildcard, then removing it, gives the trusted list back, whether or
    not the matcher could be compiled in between. *)
Theorem add_then_remove_origin_restores_list st origin :
  isWildcard origin = false ->
  ~ In origin (allowedOrigins st) ->
  ~ In ALLOW_WILDCARD (allowedOrigins st) ->
  allowedOrigins
    (final (removePostMessageOrigin origin
              (final (addPostMessageOrigin origin st)))) =
  allowedOrigins st.
Proof.
  intros W Hn Hw.
  rewrite removePostMessageOrigin_origins.
  rewrite (addPostMessageOrigin_concrete origin st W (proj2 (indexOf_None _ _) Hn)).
  rewrite (removePostMessageOrigin_absent _ _ Hw).
  unfold completion, final. cbn [fst snd].
  rewrite (indexOf_app_last _ _ Hn). apply splice1_app_last.
Qed.

Lemma add_then_remove_origin_witness :
  isWildcard "b.example" = false
  /\ ~ In "b.example" (allowedOrigins one_host)
  /\ ~ In ALLOW_WILDCARD (allowedOrigins one_host)
  /\ allowedOrigins
       (final (removePostMessageOrigin "b.example"
                 (final (addPostMessageOrigin "b.example" one_host)))) =
     allowedOrigins one_host.
Proof.
  assert (H1 : ~ In "b.example" (allowedOrigins one_host))
    by (vm_compute; intros [H|[]]; discriminate).
  assert (H2 : ~ In ALLOW_WILDCARD (allowedOrigins one_host))
    by (vm_compute; intros [H|[]]; discriminate).
  split; [reflexivity|]. split; [exact H1|]. split; [exact H2|].
  apply (add_then_remove_origin_restores_list one_host "b.example");
    [reflexivity | exact H1 | exact H2].
Defined.

Lemma not_wildcard_ne origin : isWildcard origin = false -> origin <> ALLOW_WILDCARD.
Proof. intros W ->. rewrite isWildcard_ALLOW_WILDCARD in W. discriminate. Qed.

(** The state after a concrete origin has been added to the initial state. *)
Lemma add_to_initial origin :
  isWildcard origin = false ->
  allowedOrigins (final (addPostMessageOrigin origin initial)) = [origin]
  /\ (forallb plain [origin] = true ->
      postMessageAllowedOriginRegex (final (addPostMessageOrigin origin initial))
      = origin_matcher [origin]).
Proof.
  intros W. pose proof (not_wildcard_ne _ W) as Hne.
  unfold addPostMessageOrigin. rewrite W, bind_get.
  change (allowedOrigins initial) with [ALLOW_WILDCARD].
  cbn [indexOf]. destruct (String.eqb_spec ALLOW_WILDCARD origin) as [E|_];
    [congruence|].
  assert (Hrm : exists st1,
             removePostMessageOrigin ALLOW_WILDCARD initial = (st1, [], Ok tt)
             /\ allowedOrigins st1 = []).
  { eexists. split; vm_compute; reflexivity. }
  destruct Hrm as (st1 & Hrm & Hl).
  rewrite (bind_Ok _ _ _ _ _ Hrm), bind_get, bind_modify, bind_get.
  state_fields. rewrite Hl. cbn [app]. split.
  - unfold bind, lift. destruct (compileOriginRegExp [origin]); reflexivity.
  - intros Hp. now rewrite (compileOriginRegExp_plain _ Hp), bind_lift_Ok.
Qed.

Lemma origin_matcher_empty_or_single env st host :
  postMessageAllowedOriginRegex st = origin_matcher [host] ->
  accepts_only env st host.
Proof.
  intros Hre origin Hacc. rewrite origin_accepted_cases, Hre in Hacc.
  apply orb_true_iff in Hacc as [Hacc|Hacc];
    [apply orb_true_iff in Hacc as [Hacc|Hacc]|].
  - left. now apply String.eqb_eq.
  - right. right. unfold Regex.test in Hacc.
    apply origin_matcher_single in Hacc as (scheme & m & Ho & Hs & Hm).
    exists (string_of_list_ascii scheme), (string_of_list_ascii m).
    rewrite !list_ascii_of_string_of_list_ascii. split; [|auto].
    rewrite <- string_of_chars_app, <- Ho.
    symmetry. apply string_of_list_ascii_of_string.
  - right. left. now apply String.eqb_eq.
Qed.

(** X6.  Removing the only concrete origin does not bring the wildcard
    back: after a concrete origin has been added to the initial state and
    removed again, the trusted list is empty, and the own origin, [null]
    and the bare schemes [http://] and [https://] are all that the origin
    check accepts. *)
Theorem remove_last_origin_trusts_nobody env origin :
  isWildcard origin = false ->
  allowedOrigins (added_then_removed origin) = []
  /\ accepts_only env (added_then_removed origin) "".
Proof.
  intros W. unfold added_then_removed.
  destruct (add_to_initial origin W) as [Hl _].
  set (st1 := final (addPostMessageOrigin origin initial)) in *.
  assert (Hrm : removePostMessageOrigin origin st1 =
                (set_postMessageAllowedOriginRegex (origin_matcher [])
                   (set_allowedOrigins [] st1), [], Ok tt)).
  { unfold removePostMessageOrigin. rewrite bind_get, Hl.
    cbn [indexOf]. rewrite String.eqb_refl.
    rewrite bind_modify, bind_get. state_fields. cbn [splice1].
    change (compileOriginRegExp []) with (Ok (origin_matcher [])).
    now rewrite bind_lift_Ok. }
  rewrite Hrm. unfold final. cbn [fst]. split; [reflexivity|].
  apply origin_matcher_empty_or_single. reflexivity.
Qed.

Lemma remove_last_origin_witness :
  isWildcard "example.com" = false
  /\ allowedOrigins (added_then_removed "example.com") = []
  /\ accepts_only (parent_env None) (added_then_removed "example.com") "".
Proof.
  split; [reflexivity|].
  apply (remove_last_origin_trusts_nobody (parent_env None) "example.com").
  reflexivity.
Defined.

(** X7.  A wildcard added after a concrete host does not open the check
    again: the trusted list becomes the wildcard alone, but the matcher is
    not recompiled and goes on accepting that host only. *)
Theorem wildcard_after_host_stays_closed env host wildcard :
  plain host = true -> isWildcard host = false -> isWildcard wildcard = true ->
  allowedOrigins (host_then_wildcard host wildcard) = [ALLOW_WILDCARD]
  /\ accepts_only env (host_then_wildcard host wildcard) host.
Proof.
  intros Hp W Ww. unfold host_then_wildcard.
  destruct (add_to_initial host W) as [_ Hre].
  assert (Hpl : forallb plain [host] = true) by (cbn; now rewrite Hp).
  specialize (Hre Hpl).
  set (st1 := final (addPostMessageOrigin host initial)) in *.
  unfold addPostMessageOrigin. rewrite Ww. unfold modify, final. cbn [fst].
  split; [reflexivity|].
  apply origin_matcher_empty_or_single. exact Hre.
Qed.

Lemma wildcard_after_host_witness :
  plain "example.com" = true
  /\ isWildcard "example.com" = false
  /\ isWildcard "*" = true
  /\ allowedOrigins (host_then_wildcard "example.com" "*") = [ALLOW_WILDCARD]
  /\ accepts_only (parent_env None) (host_then_wildcard "example.com" "*")
                  "example.com".
Proof.
  do 3 (split; [reflexivity|]).
  apply (wildcard_after_host_stays_closed (parent_env None) "example.com" "*");
    reflexivity.
Defined.

(** ** The wildcard *)

Lemma initial_origin_tree :
  Regex.tree (postMessageAllowedOriginRegex initial) =
  Regex.mk_alt
    [Regex.mk_seq (origin_front ++ [Regex.Star Regex.AnyChar; Regex.InputEnd])]
  /\ Regex.ignoreCase (postMessageAllowedOriginRegex initial) = true.
Proof. split; reflexivity. Qed.

Lemma wildcard_tail total m r :
  In r (Regex.run true total
          (Regex.mk_seq [Regex.Star Regex.AnyChar; Regex.InputEnd]) m) <->
  r = [] /\ forallb (fun c => negb (Chars.is_line_terminator c)) m = true.
Proof.
  change (Regex.mk_seq [Regex.Star Regex.AnyChar; Regex.InputEnd])
    with (Regex.Seq (Regex.Star Regex.AnyChar)
            (Regex.Seq Regex.InputEnd Regex.Empty)).
  rewrite in_run_seq. split.
  - intros (m1 & H1 & H). apply in_run_seq in H as (m2 & H2 & H).
    apply in_run_end in H2 as [-> ->]. destruct H as [<-|[]].
    apply in_run_star_any in H1 as (mm & -> & Hmm).
    rewrite List.app_nil_r. auto.
  - intros [-> Hm]. exists []. split.
    + apply in_run_star_any. exists m. now rewrite List.app_nil_r.
    + apply in_run_seq. exists []. split; [now apply in_run_end | now left].
Qed.

(** X8.  Initially, with the wildcard trusted, the origin check accepts
    exactly the own origin, the string [null], and every origin that is
    [http://] or [https://] (in any letter case) followed by text without
    line break; an origin with another scheme is rejected. *)
Theorem initial_check_accepts_http_origins env origin :
  origin_accepted env initial origin = true <->
  origin = location_origin env \/ origin = "null"
  \/ exists scheme rest,
       origin = scheme +:+ rest
       /\ is_scheme (list_ascii_of_string scheme) = true
       /\ one_line rest = true.
Proof.
  destruct initial_origin_tree as [Htree Hic].
  rewrite origin_accepted_cases, !orb_true_iff, !String.eqb_eq.
  unfold Regex.test. rewrite test_chars_iff, Htree, Hic.
  split.
  - intros [[H|H]|H]; [now left | | right; now left].
    right. right. destruct H as (l & t & r & Ho & H).
    apply in_run_mk_alt in H as (a & [<-|[]] & H).
    apply in_run_mk_seq_app in H as (m & Hfront & H).
    apply origin_front_sound in Hfront as (Hlen & scheme & -> & Hs).
    apply wildcard_tail in H as [-> Hm].
    rewrite Ho in Hlen.
    destruct l; [|cbn [length app] in Hlen; rewrite !List.length_app in Hlen; lia].
    cbn [app] in Ho.
    exists (string_of_list_ascii scheme), (string_of_list_ascii m).
    rewrite one_line_chars, !list_ascii_of_string_of_list_ascii.
    split; [|auto].
    rewrite <- string_of_chars_app, <- Ho.
    symmetry. apply string_of_list_ascii_of_string.
  - intros [H|[H|(scheme & rest & -> & Hs & Hl)]];
      [left; now left | now right |].
    left. right.
    exists [], (list_ascii_of_string (scheme +:+ rest)), [].
    split; [reflexivity|].
    apply in_run_mk_alt. eexists. split; [now left|].
    apply in_run_mk_seq_app. exists (list_ascii_of_string rest). split.
    + rewrite chars_app. now apply origin_front_accepts.
    + apply wildcard_tail. split; [reflexivity|]. now rewrite <- one_line_chars.
Qed.

(** For instance a page served over [ftp] or from a file is rejected. *)
Example initial_rejects_other_schemes :
  origin_accepted (parent_env None) initial "ftp://child.example" = false
  /\ origin_accepted (parent_env None) initial "file://" = false
  /\ origin_accepted (parent_env None) initial "HTTPS://child.example" = true.
Proof. repeat split. Qed.

(** ** Listening and stopping *)

(** The end of [listen], whatever the state. *)
Lemma attach_step st :
  exists st1,
    (if negb (listening st) then
       do _ <- addEventListener "message" HandleReceiveMessage;
       modify (set_listening true)
     else ret tt) st = (st1, [], Ok tt)
    /\ messageNamespaces st1 = messageNamespaces st
    /\ messageNamespacesRegex st1 = messageNamespacesRegex st
    /\ listening st1 = true.
Proof.
  destruct (listening st) eqn:L; cbn [negb].
  - exists st. repeat split; auto.
  - unfold addEventListener. rewrite bind_modify.
    eexists. split; [reflexivity|].
    destruct (existsb _ (listeners st)); repeat split.
Qed.

(** X9.  A [listen] that completes makes the namespace active and sets the
    flag, and calling it again with the same namespace changes nothing. *)
Theorem listen_again_changes_nothing st namespace st1 t :
  listen namespace st = (st1, t, Ok tt) ->
  listen namespace st1 = (st1, [], Ok tt)
  /\ In namespace (messageNamespaces st1)
  /\ listening st1 = true.
Proof.
  intros H.
  assert (Hfacts : In namespace (messageNamespaces st1) /\ listening st1 = true).
  { unfold listen in H. rewrite bind_get in H.
    destruct (indexOf namespace (messageNamespaces st)) eqn:E.
    - rewrite bind_ret, bind_get in H.
      destruct (attach_step st) as (st2 & Ha & Hns & _ & Hl).
      rewrite Ha in H. inversion H; subst st2.
      rewrite Hns. split; [eapply indexOf_Some_In, E | exact Hl].
    - rewrite bind_assoc, bind_modify, bind_assoc, bind_get in H. state_fields.
      destruct (compileNamespaceRegExp (messageNamespaces st ++ [namespace]))
        as [re| |]; try (unfold bind, lift in H; discriminate).
      rewrite bind_assoc, bind_lift_Ok, bind_modify, bind_get in H.
      match type of H with
      | context [negb (listening ?s)] =>
          destruct (attach_step s) as (st2 & Ha & Hns & _ & Hl)
      end.
      rewrite Ha in H. inversion H; subst st2.
      rewrite Hns. state_fields. split; [|exact Hl].
      apply in_or_app. right. now left. }
  destruct Hfacts as [Hin Hl]. repeat split; [|exact Hin|exact Hl].
  unfold listen. rewrite bind_get.
  destruct (indexOf namespace (messageNamespaces st1)) eqn:E;
    [|apply indexOf_None in E; contradiction].
  rewrite bind_ret, bind_get, Hl. reflexivity.
Qed.

Lemma listen_again_witness :
  listen "dfp" initial = (final (listen "dfp" initial), [], Ok tt)
  /\ listen "dfp" (final (listen "dfp" initial)) =
     (final (listen "dfp" initial), [], Ok tt)
  /\ In "dfp" (messageNamespaces (final (listen "dfp" initial)))
  /\ listening (final (listen "dfp" initial)) = true.
Proof.
  assert (H : listen "dfp" initial = (final (listen "dfp" initial), [], Ok tt))
    by (vm_compute; reflexivity).
  split; [exact H|].
  exact (listen_again_changes_nothing initial "dfp" _ _ H).
Defined.

(** X10.  In a consistent state that is already listening, activating a new
    plain namespace and stopping it again gives the state back, matcher
    included. *)
Theorem listen_then_stop_restores_state st namespace :
  consistent st -> plain namespace = true ->
  ~ In namespace (messageNamespaces st) ->
  messageNamespaces st <> [] -> listening st = true ->
  final (stopListening namespace (final (listen namespace st))) = st.
Proof.
  intros (Hp & Hcur & _) Hn Hnot Hne Hl.
  assert (Hp' : forallb plain (messageNamespaces st ++ [namespace]) = true).
  { rewrite forallb_app, Hp. cbn. now rewrite Hn. }
  assert (Hlisten : listen namespace st =
                    (set_messageNamespacesRegex
                       (namespace_matcher (messageNamespaces st ++ [namespace]))
                       (set_messageNamespaces
                          (messageNamespaces st ++ [namespace]) st),
                     [], Ok tt)).
  { unfold listen. rewrite bind_get, (proj2 (indexOf_None _ _) Hnot).
    rewrite bind_assoc, bind_modify, bind_assoc, bind_get. state_fields.
    rewrite (compileNamespaceRegExp_plain _ Hp').
    rewrite bind_assoc, bind_lift_Ok, bind_modify, bind_get. state_fields.
    now rewrite Hl. }
  rewrite Hlisten. unfold final at 2. cbn [fst].
  unfold stopListening. rewrite bind_get. state_fields.
  rewrite (indexOf_app_last _ _ Hnot), bind_modify, bind_get. state_fields.
  rewrite splice1_app_last.
  pose proof (Hcur Hne) as Hc.
  destruct (messageNamespaces st) as [|n0 rest] eqn:E; [congruence|].
  cbn [length Nat.eqb negb]. rewrite Hc, bind_lift_Ok.
  unfold modify, final. cbn [fst]. destruct st. state_fields. now subst.
Qed.

Lemma listen_then_stop_witness :
  consistent with_proxy
  /\ plain "other" = true
  /\ ~ In "other" (messageNamespaces with_proxy)
  /\ messageNamespaces with_proxy <> []
  /\ listening with_proxy = true
  /\ final (stopListening "other" (final (listen "other" with_proxy))) = with_proxy.
Proof.
  assert (Hc : consistent with_proxy).
  { split; [reflexivity|]. split; [intros _; reflexivity|]. intros _. now left. }
  assert (Hn : ~ In "other" (messageNamespaces with_proxy))
    by (vm_compute; intros [H|[H|[]]]; discriminate).
  assert (Hne : messageNamespaces with_proxy <> []) by discriminate.
  split; [exact Hc|]. split; [reflexivity|]. split; [exact Hn|].
  split; [exact Hne|]. split; [reflexivity|].
  exact (listen_then_stop_restores_state with_proxy "other" Hc
           ltac:(reflexivity) Hn Hne ltac:(reflexivity)).
Defined.

(** X11.  Stopping the only active namespace empties the set, clears the
    flag and detaches the handler from [message], without recompiling the
    matcher and without touching the subscriptions. *)
Theorem stop_last_namespace_detaches st namespace :
  messageNamespaces st = [namespace] ->
  last_namespace_spec st namespace.
Proof.
  intros Hns.
  assert (H : stopListening namespace st =
              (set_listening false
                 (set_listeners
                    (filter (fun r => negb (registered "message" HandleReceiveMessage r))
                            (listeners (set_messageNamespaces [] st)))
                    (set_messageNamespaces [] st)),
               [], Ok tt)).
  { unfold stopListening. rewrite bind_get, Hns. cbn [indexOf].
    rewrite String.eqb_refl, bind_modify, bind_get. state_fields.
    cbn [splice1 length Nat.eqb negb].
    unfold removeEventListener. now rewrite bind_modify. }
  unfold last_namespace_spec. rewrite H.
  unfold completion, trace, final, handler_attached. state_fields.
  repeat split.
  - rewrite <- list_elem_of_In, list_elem_of_filter.
    intros [Hf _]. apply Is_true_true in Hf. discriminate.
  - intros type sc Hin. rewrite <- list_elem_of_In, list_elem_of_filter.
    split; [|now apply list_elem_of_In].
    apply Is_true_true. unfold registered. cbn [fst snd listener_eqb].
    now rewrite andb_false_r.
Qed.

Lemma stop_last_namespace_witness :
  messageNamespaces subscribed_on_dfp = ["dfp"]
  /\ listening subscribed_on_dfp = true
  /\ listeners subscribed_on_dfp =
     [("message", HandleReceiveMessage);
      ("init.dfp",
       Scoped {| sc_id := 0; sc_source := JNull;
                 sc_callback := JFunction 7; sc_context := JUndefined |})]
  /\ last_namespace_spec subscribed_on_dfp "dfp"
  /\ listeners (final (stopListening "dfp" subscribed_on_dfp)) =
     [("init.dfp",
       Scoped {| sc_id := 0; sc_source := JNull;
                 sc_callback := JFunction 7; sc_context := JUndefined |})].
Proof.
  split; [reflexivity|]. split; [reflexivity|]. split; [reflexivity|].
  split; [|reflexivity].
  apply (stop_last_namespace_detaches subscribed_on_dfp "dfp").
  reflexivity.
Defined.

(** X12.  When the matcher cannot be compiled for a new namespace, [listen]
    throws after the namespace has been recorded and before the handler is
    attached; the next [listen] with that namespace completes and attaches
    the handler, and the matcher is still the one from before. *)
Theorem listen_failure_records_namespace st namespace e :
  indexOf namespace (messageNamespaces st) = None ->
  compileNamespaceRegExp (messageNamespaces st ++ [namespace]) = Throws e ->
  failed_listen_spec st namespace e.
Proof.
  intros Hi Hc. unfold failed_listen_spec. cbv zeta.
  set (st1 := set_messageNamespaces (messageNamespaces st ++ [namespace]) st).
  assert (H1 : listen namespace st = (st1, [], Throws e)).
  { unfold listen. rewrite bind_get, Hi.
    rewrite bind_assoc, bind_modify, bind_assoc, bind_get. state_fields.
    rewrite Hc. reflexivity. }
  split; [exact H1|].
  assert (Hin : ~ In namespace (messageNamespaces st)) by now apply indexOf_None.
  unfold listen. rewrite bind_get. subst st1. state_fields.
  rewrite (indexOf_app_last _ _ Hin), bind_ret, bind_get.
  match goal with
  | |- context [negb (listening ?s)] =>
      destruct (attach_step s) as (st2 & Ha & Hns & Hre & Hl)
  end.
  rewrite Ha. unfold completion, final. cbn [fst snd].
  rewrite Hns, Hre. state_fields. auto.
Qed.

Lemma listen_failure_witness :
  indexOf "(" (messageNamespaces initial) = None
  /\ compileNamespaceRegExp (messageNamespaces initial ++ ["("]) = Throws SyntaxError
  /\ failed_listen_spec initial "(" SyntaxError.
Proof.
  split; [reflexivity|]. split; [reflexivity|].
  apply (listen_failure_records_namespace initial "(" SyntaxError); reflexivity.
Defined.

(** ** The types let through *)

Lemma pattern_matches_name p m :
  forallb name_char p = true -> pattern_matches false p m = true -> m = p.
Proof.
  revert m. induction p as [|c p IH]; intros [|x m] Hp H; try discriminate.
  - reflexivity.
  - cbn [forallb pattern_matches] in *.
    apply andb_true_iff in Hp as [Hc Hp]. apply andb_true_iff in H as [Hx H].
    apply name_char_literal in Hc as [Hc _].
    unfold atom_matches in Hx. rewrite Hc in Hx.
    unfold Chars.char_matches in Hx. apply Ascii.eqb_eq in Hx as <-.
    f_equal. now apply IH.
Qed.

(** X13.  For active namespaces made of literal characters, the matcher
    compiles, and it lets through exactly the types that end with a [.]
    followed by one of the namespaces. *)
Theorem active_namespaces_filter_types namespaces :
  namespaces <> [] -> forallb simple_name namespaces = true ->
  namespace_filter_spec namespaces.
Proof.
  intros Hne Hs.
  assert (Hfacts : forall n, In n namespaces ->
                             plain n = true /\ one_line n = true
                             /\ forallb name_char (list_ascii_of_string n) = true).
  { intros n Hin. rewrite forallb_forall in Hs.
    now destruct (simple_name_facts _ (Hs n Hin)) as (_ & ? & ? & ?). }
  assert (Hp : forallb plain namespaces = true).
  { apply forallb_forall. intros n Hin. now apply Hfacts. }
  exists (namespace_matcher namespaces).
  split; [now apply compileNamespaceRegExp_plain|].
  intros type. rewrite (namespace_matcher_test _ _ Hne). split.
  - intros (ev & n & rest & Hin & Htype & Hm).
    destruct (Hfacts n Hin) as (_ & _ & Hchars).
    apply (pattern_matches_name _ _ Hchars) in Hm. subst rest.
    exists (string_of_list_ascii ev), n. split; [exact Hin|].
    rewrite <- (string_of_list_ascii_of_string type), Htype.
    rewrite string_of_chars_app.
    change ("."%char :: list_ascii_of_string n)
      with (list_ascii_of_string ("." +:+ n)).
    now rewrite string_of_list_ascii_of_string.
  - intros (event & n & Hin & ->).
    destruct (Hfacts n Hin) as (_ & Hl & _).
    exists (list_ascii_of_string event), n, (list_ascii_of_string n).
    split; [exact Hin|]. split; [now rewrite !chars_app|].
    apply pattern_matches_self; [now apply Hfacts | exact Hl].
Qed.

Lemma active_namespaces_witness :
  ["dfp"; "ads"] <> []
  /\ forallb simple_name ["dfp"; "ads"] = true
  /\ namespace_filter_spec ["dfp"; "ads"].
Proof.
  assert (Hne : ["dfp"; "ads"] <> ([] : list string)) by discriminate.
  split; [exact Hne|]. split; [reflexivity|].
  exact (active_namespaces_filter_types ["dfp"; "ads"] Hne ltac:(reflexivity)).
Defined.

(** ** What a delivery leaves alone *)

Lemma settings_kept_refl st : settings_kept st st.
Proof. repeat split; auto. Qed.

Lemma settings_kept_trans st st1 st2 :
  settings_kept st st1 -> settings_kept st1 st2 -> settings_kept st st2.
Proof.
  intros (A1 & A2 & A3 & A4 & A5 & A6 & A7 & A8) (B1 & B2 & B3 & B4 & B5 & B6 & B7 & B8).
  repeat split; try congruence. auto.
Qed.

Lemma keeps_ret {A} (a : A) : keeps_settings (ret a).
Proof. intros st. apply settings_kept_refl. Qed.

Lemma keeps_get : keeps_settings get.
Proof. intros st. apply settings_kept_refl. Qed.

Lemma keeps_emit e : keeps_settings (emit e).
Proof. intros st. apply settings_kept_refl. Qed.

Lemma keeps_lift {A} (r : result A) : keeps_settings (lift r).
Proof. intros st. apply settings_kept_refl. Qed.

Lemma keeps_throw {A} e : keeps_settings (@throw A e).
Proof. intros st. apply settings_kept_refl. Qed.

Lemma keeps_bind {A B} (m : M A) (f : A -> M B) :
  keeps_settings m -> (forall a, keeps_settings (f a)) -> keeps_settings (bind m f).
Proof.
  intros Hm Hf st. unfold bind. specialize (Hm st).
  destruct (m st) as [[st1 t1] [a| |]]; try exact Hm.
  specialize (Hf a st1). destruct (f a st1) as [[st2 t2] r].
  exact (settings_kept_trans _ _ _ Hm Hf).
Qed.

Lemma keeps_for_each {A} (l : list A) (f : A -> M unit) :
  (forall a, keeps_settings (f a)) -> keeps_settings (for_each l f).
Proof.
  intros Hf. induction l as [|x l IH]; cbn [for_each].
  - apply keeps_ret.
  - apply keeps_bind; auto.
Qed.

Lemma keeps_reporting m : keeps_settings m -> keeps_settings (reporting m).
Proof.
  intros Hm st. unfold reporting. specialize (Hm st).
  now destruct (m st) as [[st1 t1] [a| |]].
Qed.

Lemma keeps_off h : keeps_settings (off h).
Proof.
  intros st. unfold off, modify, final. state_fields.
  repeat split. intros r Hin. apply list_elem_of_In in Hin.
  apply list_elem_of_filter in Hin as [_ Hin]. now apply list_elem_of_In.
Qed.

Lemma keeps_postMessage target type data options :
  keeps_settings (postMessage target type data options).
Proof.
  intros st. rewrite postMessage_result.
  destruct (assign_defaults _) as [[d o]| |]; apply settings_kept_refl.
Qed.

Lemma keeps_function_apply env callee thisArg args :
  callbacks_keep_settings env ->
  keeps_settings (function_apply env callee thisArg args).
Proof.
  intros Hu. revert thisArg args.
  induction callee as [| | | | | | |callback IH listener]; intros thisArg args;
    cbn [function_apply];
    try apply keeps_throw; try apply keeps_lift.
  - apply keeps_bind; [apply keeps_emit | intros _; apply Hu].
  - apply keeps_bind; [|intros _; apply keeps_off].
    destruct (truthy callback); [|apply keeps_ret].
    destruct (module_arguments env); [apply IH | apply keeps_throw].
Qed.

Lemma keeps_call_scoped env sc e :
  callbacks_keep_settings env -> keeps_settings (call_scoped env sc e).
Proof.
  intros Hu. unfold call_scoped. apply keeps_bind.
  - destruct (_ && _); [|apply keeps_ret].
    apply keeps_bind; [apply keeps_lift | intros w; apply keeps_ret].
  - intros [|]; [apply keeps_ret | now apply keeps_function_apply].
Qed.

Lemma keeps_handleReceiveMessage_with env k e :
  (forall e', keeps_settings (k e')) ->
  keeps_settings (handleReceiveMessage_with env k e).
Proof.
  intros Hk. unfold handleReceiveMessage_with.
  apply keeps_bind; [apply keeps_get|]. intros st0.
  destruct (origin_rejected env st0 e); [apply keeps_ret|].
  apply keeps_bind; [apply keeps_lift|]. intros message.
  apply keeps_bind; [apply keeps_lift|]. intros type.
  destruct (negb _); [apply keeps_ret|].
  destruct type; try apply keeps_throw.
  apply keeps_bind; [apply keeps_lift|]. intros data.
  apply keeps_bind; [apply keeps_lift|]. intros options.
  apply keeps_bind; [|intros _; apply Hk].
  destruct (get_proxy st0 _); [|apply keeps_throw|apply keeps_ret].
  apply keeps_for_each. intros target. apply keeps_postMessage.
Qed.

Lemma keeps_call_listeners env handler e :
  callbacks_keep_settings env ->
  (forall e', keeps_settings (handler e')) ->
  keeps_settings (call_listeners env handler e).
Proof.
  intros Hu Hh. unfold call_listeners.
  apply keeps_bind; [apply keeps_get|]. intros st0.
  apply keeps_for_each. intros r.
  apply keeps_bind; [apply keeps_get|]. intros st1.
  destruct (existsb _ _); [|apply keeps_ret].
  apply keeps_reporting.
  destruct (snd r); [apply Hh | now apply keeps_call_scoped].
Qed.

Lemma keeps_dispatchEvent env e :
  callbacks_keep_settings env -> keeps_settings (dispatchEvent env e).
Proof.
  intros Hu. unfold dispatchEvent.
  apply keeps_bind; [apply keeps_emit|]. intros _.
  apply keeps_call_listeners; [exact Hu|]. intros e'. unfold handleCustomEvent.
  apply keeps_handleReceiveMessage_with. intros e''. apply keeps_lift.
Qed.

(** X14.  The module's own part in a delivery changes no setting: when the
    user functions leave the trusted origins, the active namespaces, both
    matchers, the proxy table and the flag as they are and register no
    listener, then so does the delivery of any message, from whatever
    origin and whatever subscriptions it reaches. *)
Theorem delivery_keeps_settings env origin data source st :
  callbacks_keep_settings env ->
  settings_kept st (final (deliver env origin data source st)).
Proof.
  intros Hu. unfold deliver. apply keeps_call_listeners; [exact Hu|]. intros e.
  unfold handleReceiveMessage. apply keeps_handleReceiveMessage_with.
  intros e'. now apply keeps_dispatchEvent.
Qed.

Lemma delivery_keeps_settings_witness :
  callbacks_keep_settings (parent_env None)
  /\ settings_kept
       (final (documented_usage (parent_env None) 7 0 initial))
       (final (deliver (parent_env None) child_origin (text_of "init.dfp")
                       (JWindow child_window)
                       (final (documented_usage (parent_env None) 7 0 initial)))).
Proof.
  assert (Hu : callbacks_keep_settings (parent_env None)).
  { intros f thisArg args st. apply settings_kept_refl. }
  split; [exact Hu|].
  exact (delivery_keeps_settings (parent_env None) child_origin
           (text_of "init.dfp") (JWindow child_window) _ Hu).
Defined.

(** ** From one frame to the other *)

(** What [JSON.stringify] wrote for a string, [JSON.parse] reads back. *)
Lemma parse_string_quote_char c t acc :
  escapable c = true ->
  parse_string (list_ascii_of_string (quote_char c) ++ t) acc = parse_string t (c :: acc).
Proof.
  destruct c as [[] [] [] [] [] [] [] []]; intros H; try discriminate H; reflexivity.
Qed.

Lemma parse_string_quoted s t acc :
  text_string s = true ->
  parse_string (list_ascii_of_string (quote_chars s) ++ dquote :: t) acc =
  Ok (string_of_list_ascii (rev acc ++ list_ascii_of_string s), t).
Proof.
  unfold text_string. revert acc.
  induction s as [|c s IH]; intros acc H.
  - cbn [quote_chars list_ascii_of_string app]. rewrite List.app_nil_r. reflexivity.
  - cbn [list_ascii_of_string forallb quote_chars] in *.
    apply andb_true_iff in H as [Hc Hs].
    rewrite chars_app, <- List.app_assoc, (parse_string_quote_char _ _ _ Hc), (IH _ Hs).
    cbn [rev]. now rewrite <- List.app_assoc.
Qed.

Lemma parse_value_string fuel s rest :
  text_string s = true ->
  parse_value (S fuel) (list_ascii_of_string (quote s) ++ rest) = Ok (VStr s, rest).
Proof.
  intros H. unfold quote.
  cbn [list_ascii_of_string app]. rewrite chars_app, <- List.app_assoc.
  cbn [list_ascii_of_string app].
  match goal with
  | |- parse_value _ (_ :: ?x) = _ =>
      change (match parse_string x [] with
              | Ok (str, rest) => Ok (VStr str, rest)
              | Throws e => Throws e
              | Unmodelled => Unmodelled
              end = Ok (VStr s, rest))
  end.
  rewrite (parse_string_quoted _ _ _ H). cbn [rev app].
  now rewrite string_of_list_ascii_of_string.
Qed.

Lemma parse_value_scalar fuel v rest :
  scalar v = true ->
  parse_value (S fuel) (list_ascii_of_string (stringify v) ++ rest) = Ok (v, rest).
Proof.
  destruct v as [| |[]| |s| |]; intros H; try discriminate H; try reflexivity.
  now apply parse_value_string.
Qed.

Lemma envelope_chars type data :
  scalar data = true ->
  list_ascii_of_string (envelope type data) =
  list_ascii_of_string ("{" +:+ quote "type" +:+ ":")
  ++ list_ascii_of_string (quote type)
  ++ list_ascii_of_string ("," +:+ quote "data" +:+ ":")
  ++ list_ascii_of_string (stringify data)
  ++ list_ascii_of_string ("," +:+ quote "defaultedOptions" +:+ ":{" +:+
                           quote "targetOrigin" +:+ ":" +:+ quote "*" +:+ "}}").
Proof.
  intros H.
  assert (E : envelope type data =
              "{" +:+ ((quote "type" +:+ ":" +:+ quote type) +:+ "," +:+
                       ((quote "data" +:+ ":" +:+ stringify data) +:+ "," +:+
                        (quote "defaultedOptions" +:+ ":{" +:+
                         quote "targetOrigin" +:+ ":" +:+ quote "*" +:+ "}")))
                  +:+ "}").
  { destruct data as [| |[]| |s| |]; try discriminate H; reflexivity. }
  rewrite E, !chars_app, <- !List.app_assoc. reflexivity.
Qed.

Lemma parse_members_step fuel acc k v s rest :
  text_string k = true -> all_digits k = false ->
  parse_value fuel s = Ok (v, rest) ->
  parse_members (S fuel) acc (list_ascii_of_string (quote k) ++ ":"%char :: s) =
  match skip_ws rest with
  | c :: t =>
      if Ascii.eqb c "," then parse_members fuel (set_member k v acc) t
      else if Ascii.eqb c "}" then Ok (VObj (set_member k v acc), t)
      else Throws SyntaxError
  | [] => Throws SyntaxError
  end.
Proof.
  intros Hk Hd Hv. unfold quote.
  cbn [list_ascii_of_string app]. rewrite chars_app, <- List.app_assoc.
  cbn [list_ascii_of_string app].
  match goal with
  | |- parse_members _ _ (_ :: ?x) = ?rhs =>
      change (match parse_string x [] with
              | Ok (k, rest) =>
                  match skip_ws rest with
                  | colon :: rest' =>
                      if Ascii.eqb colon ":" then
                        match parse_value fuel rest' with
                        | Ok (v, rest'') =>
                            if all_digits k then Unmodelled else
                            match skip_ws rest'' with
                            | c :: t' =>
                                if Ascii.eqb c ","
                                then parse_members fuel (set_member k v acc) t'
                                else if Ascii.eqb c "}"
                                then Ok (VObj (set_member k v acc), t')
                                else Throws SyntaxError
                            | [] => Throws SyntaxError
                            end
                        | other => other
                        end
                      else Throws SyntaxError
                  | [] => Throws SyntaxError
                  end
              | Throws e => Throws e
              | Unmodelled => Unmodelled
              end = rhs)
  end.
  rewrite (parse_string_quoted _ _ _ Hk). cbn [rev app].
  rewrite string_of_list_ascii_of_string.
  change (skip_ws (":"%char :: s)) with (":"%char :: s).
  change (Ascii.eqb ":" ":") with true. cbv iota.
  rewrite Hv, Hd. reflexivity.
Qed.

Lemma parse_envelope type data :
  text_string type = true -> scalar data = true ->
  JSON.parse (envelope type data) =
  Ok (VObj [("type", VStr type); ("data", data);
            ("defaultedOptions", VObj [("targetOrigin", VStr "*")])]).
Proof.
  intros Ht Hd. unfold JSON.parse. rewrite (envelope_chars _ _ Hd).
  set (tail := list_ascii_of_string ("," +:+ quote "defaultedOptions" +:+ ":{" +:+
                           quote "targetOrigin" +:+ ":" +:+ quote "*" +:+ "}}")).
  match goal with
  | |- context [parse_value ?f ?l] =>
      assert (Hf : exists k, f = 7 + k)
  end.
  { rewrite List.length_app.
    change (length (list_ascii_of_string ("{" +:+ quote "type" +:+ ":"))) with 8.
    match goal with
    | |- context [8 + ?n] => exists (2 * (8 + n) + 2 - 7)
    end. lia. }
  destruct Hf as (k & ->). cbn [Nat.add].
  change (list_ascii_of_string ("{" +:+ quote "type" +:+ ":") ++ ?r)
    with ("{"%char :: (list_ascii_of_string (quote "type") ++ ":"%char :: r)).
  change (list_ascii_of_string ("," +:+ quote "data" +:+ ":") ++ ?r)
    with (","%char :: (list_ascii_of_string (quote "data") ++ ":"%char :: r)).
  change (parse_value (S ?f) ("{"%char :: ?x)) with (parse_members f [] x).
  rewrite (parse_members_step _ _ "type" _ _ _ eq_refl eq_refl
             (parse_value_string _ _ _ Ht)).
  change (skip_ws (","%char :: ?x)) with (","%char :: x).
  change (Ascii.eqb "," ",") with true. cbv iota.
  rewrite (parse_members_step _ _ "data" _ _ _ eq_refl eq_refl
             (parse_value_scalar _ _ _ Hd)).
  subst tail. vm_compute. reflexivity.
Qed.

(** [type.split('.')] of a name, a [.] and more text. *)
Lemma split_name_cons event rest :
  forallb name_char (list_ascii_of_string event) = true ->
  split "." (event +:+ "." +:+ rest) = event :: split "." rest.
Proof.
  intros He. induction event as [|c event IH].
  - change ("" +:+ "." +:+ rest) with (String "." rest).
    cbn [split]. change (Ascii.eqb "." ".") with true. reflexivity.
  - cbn [list_ascii_of_string forallb] in He.
    apply andb_true_iff in He as [Hc He].
    change (String c event +:+ "." +:+ rest) with (String c (event +:+ "." +:+ rest)).
    cbn [split]. now rewrite (name_char_not_dot c Hc), (IH He).
Qed.

Lemma accepted_message_trace env st prefix namespace key origin body source
      message data options defaulted targetOrigin :
  consistent st ->
  In namespace (messageNamespaces st) ->
  simple_name namespace = true ->
  nth_error (firstn 2 (split "." (prefix +:+ "." +:+ namespace))) 1 = Some key ->
  inherited key = false ->
  origin_accepted env st origin = true ->
  JSON.parse body = Ok message ->
  get_prop message "type" = Ok (VStr (prefix +:+ "." +:+ namespace)) ->
  get_prop message "data" = Ok data ->
  get_prop message "options" = Ok options ->
  assign_defaults (match options with VUndefined => VObj [] | o => o end) =
    Ok (defaulted, targetOrigin) ->
  exists rest,
    trace (handleReceiveMessage env (MessageEvent origin body source) st) =
    map (fun w =>
           Sent w
                (JSON.stringify
                   (VObj [("type", VStr (prefix +:+ "." +:+ namespace));
                          ("data", data);
                          ("defaultedOptions", defaulted)]))
                targetOrigin)
        (previous_targets st key)
    ++ Dispatched (CustomEvent (prefix +:+ "." +:+ namespace) data source) :: rest.
Proof.
  intros (Hplain & Hcur & _) Hin Hn Hkey Hown Hacc Hparse Htype Hdata Hopts Hdef.
  pose proof (simple_name_facts _ Hn) as (_ & Hp & Hl & Hchars).
  assert (Hre : messageNamespacesRegex st = namespace_matcher (messageNamespaces st)).
  { assert (Hne : messageNamespaces st <> []) by (intros E; rewrite E in Hin; destruct Hin).
    specialize (Hcur Hne). rewrite (compileNamespaceRegExp_plain _ Hplain) in Hcur.
    now inversion Hcur. }
  assert (Hrej : origin_rejected env st (MessageEvent origin body source) = false).
  { unfold origin_accepted in Hacc. apply negb_true_iff in Hacc. exact Hacc. }
  unfold handleReceiveMessage, handleReceiveMessage_with.
  rewrite bind_get, Hrej.
  change (undefined_or (ev_data (MessageEvent origin body source))) with body.
  rewrite Hparse, bind_lift_Ok, Htype, bind_lift_Ok.
  cbn [to_string]. rewrite Hre, (namespace_matcher_accepts _ _ _ Hin Hp Hl).
  cbn [negb]. rewrite Hkey.
  rewrite Hdata, bind_lift_Ok, Hopts, bind_lift_Ok.
  cbn [property_key undefined_or]. rewrite (get_proxy_own _ _ Hown).
  unfold previous_targets.
  change (ev_source (MessageEvent origin body source)) with source.
  destruct (dispatchEvent_trace env
              (CustomEvent (prefix +:+ "." +:+ namespace) data source) st)
    as (rest & Hd).
  exists rest.
  destruct (proxies st !! key) as [ws|].
  - unfold bind at 1.
    rewrite (for_each_postMessage _ _ _ _ _ _ _ Hdef
               (type_has_namespace_suffix _ _ Hn)).
    destruct (dispatchEvent env _ st) as [[st2 t2] r].
    unfold trace in *. cbn [fst snd] in *. now subst t2.
  - rewrite bind_ret. cbn [map app]. exact Hd.
Qed.

Lemma sent_then_received env st sender target prefix namespace key data origin source :
  consistent st ->
  In namespace (messageNamespaces st) ->
  simple_name namespace = true ->
  nth_error (firstn 2 (split "." (prefix +:+ "." +:+ namespace))) 1 = Some key ->
  inherited key = false ->
  text_string (prefix +:+ "." +:+ namespace) = true ->
  scalar data = true ->
  origin_accepted env st origin = true ->
  round_trip_spec env st sender target (prefix +:+ "." +:+ namespace) data
                  origin source key.
Proof.
  intros Hc Hin Hn Hkey Hown Ht Hd Hacc.
  exists (envelope (prefix +:+ "." +:+ namespace) data). split.
  - rewrite postMessage_result, (type_has_namespace_suffix _ _ Hn). reflexivity.
  - apply (accepted_message_trace env st prefix namespace key origin _ source
             _ data VUndefined _ (VStr "*") Hc Hin Hn Hkey Hown Hacc
             (parse_envelope _ _ Ht Hd)); reflexivity.
Qed.





(** The namespace [dfp] has a destination, and a message of type
    [init.x.dfp] is let through without reaching it. *)
Example two_dot_type_is_not_forwarded :
  proxies with_proxy !! "dfp" = Some [3]
  /\ trace (deliver (parent_env None) child_origin (text_of "init.x.dfp")
                    (JWindow child_window) with_proxy) =
     [Dispatched (CustomEvent "init.x.dfp" payload (JWindow child_window))].
Proof. split; vm_compute; reflexivity. Qed.

(** ** Errors *)

(** X17.  The origin is checked before the body is read: a body that is not
    JSON makes the handler throw when the origin is accepted and is dropped
    silently when it is not; either way nothing is forwarded or emitted and
    the state is unchanged. *)
Theorem malformed_body_throws_after_origin_check env st origin body source e :
  JSON.parse body = Throws e ->
  handleReceiveMessage env (MessageEvent origin body source) st =
  (st, [], if origin_accepted env st origin then Throws e else Ok tt).
Proof.
  intros Hp. unfold origin_accepted.
  change (origin_rejected env st (MessageEvent origin "" JUndefined))
    with (origin_rejected env st (MessageEvent origin body source)).
  unfold handleReceiveMessage, handleReceiveMessage_with. rewrite bind_get.
  destruct (origin_rejected env st (MessageEvent origin body source));
    [reflexivity|].
  change (undefined_or (ev_data (MessageEvent origin body source))) with body.
  rewrite Hp. reflexivity.
Qed.

Lemma malformed_body_witness :
  JSON.parse "hello" = Throws SyntaxError
  /\ handleReceiveMessage (parent_env None)
       (MessageEvent child_origin "hello" JNull) initial =
     (initial, [],
      if origin_accepted (parent_env None) initial child_origin
      then Throws SyntaxError else Ok tt).
Proof.
  split; [reflexivity|].
  apply (malformed_body_throws_after_origin_check (parent_env None) initial
           child_origin "hello" JNull SyntaxError).
  reflexivity.
Defined.

(** X18.  In a state whose trusted list does not hold the wildcard, when
    the matcher cannot be compiled for a new concrete origin,
    [addPostMessageOrigin] throws after the origin has been recorded as
    trusted, the matcher staying as it was; adding the same origin again
    then returns silently, without compiling anything.  (With the wildcard
    in the list, its removal recompiles the matcher before the throw.) *)
Theorem add_origin_failure_records_origin st origin e :
  isWildcard origin = false ->
  ~ In origin (allowedOrigins st) ->
  ~ In ALLOW_WILDCARD (allowedOrigins st) ->
  compileOriginRegExp (allowedOrigins st ++ [origin]) = Throws e ->
  failed_origin_spec st origin e.
Proof.
  intros W Hn Hw Hc. unfold failed_origin_spec. cbv zeta. split.
  - unfold addPostMessageOrigin.
    rewrite W, bind_get, (proj2 (indexOf_None _ _) Hn).
    rewrite (bind_Ok _ _ _ _ _ (removePostMessageOrigin_absent _ _ Hw)).
    rewrite bind_get, bind_modify, bind_get. state_fields.
    rewrite Hc. reflexivity.
  - unfold addPostMessageOrigin. rewrite W, bind_get. state_fields.
    now rewrite (indexOf_app_last _ _ Hn).
Qed.

Lemma add_origin_failure_witness :
  isWildcard "(" = false
  /\ ~ In "(" (allowedOrigins one_host)
  /\ ~ In ALLOW_WILDCARD (allowedOrigins one_host)
  /\ compileOriginRegExp (allowedOrigins one_host ++ ["("]) = Throws SyntaxError
  /\ failed_origin_spec one_host "(" SyntaxError.
Proof.
  assert (H1 : ~ In "(" (allowedOrigins one_host))
    by (vm_compute; intros [H|[]]; discriminate).
  assert (H2 : ~ In ALLOW_WILDCARD (allowedOrigins one_host))
    by (vm_compute; intros [H|[]]; discriminate).
  split; [reflexivity|]. split; [exact H1|]. split; [exact H2|].
  split; [reflexivity|].
  apply (add_origin_failure_records_origin one_host "(" SyntaxError);
    [reflexivity | exact H1 | exact H2 | reflexivity].
Defined.

(** ** Undoing a subscription *)

Lemma fresh_not_registered st type sc :
  ids_fresh st -> sc_id sc = closures st ->
  existsb (registered type (Scoped sc)) (listeners st) = false.
Proof.
  intros Hf Hid. destruct (existsb _ _) eqn:E; [exfalso | reflexivity].
  apply existsb_exists in E as ([t l] & Hin & Hr).
  unfold registered in Hr. cbn [fst snd] in Hr.
  apply andb_true_iff in Hr as [_ Hl].
  destruct l as [|sc']; [discriminate|]. cbn [listener_eqb] in Hl.
  apply Nat.eqb_eq in Hl. apply Hf in Hin. lia.
Qed.

Lemma receiveMessage_registers st source type callback context st1 t h :
  ids_fresh st ->
  receiveMessage source type callback context st = (st1, t, Ok h) ->
  exists sc,
    sc_id sc = closures st /\ h_scoped h = closures st
    /\ st1 = set_listeners (listeners st ++ [(h_type h, Scoped sc)])
                           (set_closures (S (closures st)) st).
Proof.
  intros Hf H. unfold receiveMessage in H.
  destruct source; cbv beta iota zeta in H; rewrite bind_get in H;
    match type of H with
    | context [event_type_of ?x] => destruct (event_type_of x) as [ty| |]
    end; try (unfold bind, lift in H; discriminate);
    rewrite bind_lift_Ok, bind_modify in H; unfold addEventListener in H;
    rewrite bind_modify in H; state_fields;
    match type of H with
    | context [Scoped ?s] => 
        rewrite (fresh_not_registered st ty s Hf eq_refl) in H;
        unfold ret in H; inversion H; subst; exists s; repeat split
    end.
Qed.

Lemma filter_all {A} (P : A -> Prop) `{forall x, Decision (P x)} (l : list A) :
  (forall x, In x l -> P x) -> filter P l = l.
Proof.
  induction l as [|x l IH]; intros Hall; [reflexivity|].
  rewrite filter_cons_True by (apply Hall; now left).
  f_equal. apply IH. intros y Hy. apply Hall. now right.
Qed.

(** X19.  [off()] of the handle that [receiveMessage] returned removes the
    subscription just made and nothing else: the listeners are those from
    before the call. *)
Theorem off_undoes_receiveMessage st source type callback context st1 t h :
  ids_fresh st ->
  receiveMessage source type callback context st = (st1, t, Ok h) ->
  subscription_undone_spec st st1 h.
Proof.
  intros Hf H.
  destruct (receiveMessage_registers _ _ _ _ _ _ _ _ Hf H)
    as (sc & Hid & Hh & ->).
  unfold subscription_undone_spec, off, modify. state_fields.
  split; [|split; [reflexivity|]].
  - rewrite filter_app, filter_cons_False, filter_nil, List.app_nil_r.
    + apply filter_all. intros [ty l] Hin. apply Is_true_true.
      cbn [fst snd]. destruct l as [|sc']; [now rewrite andb_false_r|].
      apply Hf in Hin. rewrite Hh.
      destruct (Nat.eqb_spec (sc_id sc') (closures st)); [lia|].
      now rewrite andb_false_r.
    + intros Hp. apply Is_true_true in Hp. cbn [fst snd] in Hp.
      rewrite String.eqb_refl, Hid, Hh, Nat.eqb_refl in Hp. discriminate.
  - intros ty sc' Hin. unfold ids_fresh in Hf. state_fields.
    apply in_app_or in Hin as [Hin|[Hin|[]]].
    + apply Hf in Hin. lia.
    + inversion Hin; subst. lia.
Qed.

Lemma off_undoes_receiveMessage_witness :
  ids_fresh with_proxy
  /\ receiveMessage (JString "init.dfp") (JFunction 7) JUndefined JUndefined
                    with_proxy =
     (final (receiveMessage (JString "init.dfp") (JFunction 7) JUndefined
                            JUndefined with_proxy),
      [], Ok {| h_type := "init.dfp"; h_scoped := 0 |})
  /\ subscription_undone_spec
       with_proxy
       (final (receiveMessage (JString "init.dfp") (JFunction 7) JUndefined
                              JUndefined with_proxy))
       {| h_type := "init.dfp"; h_scoped := 0 |}.
Proof.
  assert (Hf : ids_fresh with_proxy).
  { intros ty sc Hin. vm_compute in Hin. destruct Hin as [Hin|[]]. discriminate. }
  assert (H : receiveMessage (JString "init.dfp") (JFunction 7) JUndefined JUndefined
                    with_proxy =
     (final (receiveMessage (JString "init.dfp") (JFunction 7) JUndefined
                            JUndefined with_proxy),
      [], Ok {| h_type := "init.dfp"; h_scoped := 0 |})) by (vm_compute; reflexivity).
  split; [exact Hf|]. split; [exact H|].
  exact (off_undoes_receiveMessage _ _ _ _ _ _ _ _ Hf H).
Defined.
